(** * Verification of util_harvesters/image_buffer.py

    A shallow embedding of the buffer accounting ([_BufferPool]), the frame
    handle ([ImageBuffer]), the pixel normalisation ([ImageBuffer.image]) and
    the acquisition loop ([ImageReaderThread.run]) of the harvesters GUI,
    followed by the properties of the specification that were checked
    against it.

    Python integers are [Z]; sizes reported by the camera (width, height,
    components per pixel) are [nat]; a raised exception is the [Raise] case
    of [Res]; the module-level singleton, the handle objects and the calls
    that reach the camera live in an explicit [World] that every operation
    threads, and that keeps its changes when an exception is raised. *)

From Stdlib Require Import ZArith Lia Bool Ascii String Sorted QArith.
From stdpp Require Import base decidable list strings pretty.

Local Open Scope Z_scope.

(** ** Exceptions and results *)

Inductive exn : Type :=
| AssertionError
| AttributeError
| ValueError
| IndexError
| TimeoutException
| GenericException
| TypeError.

Inductive Res (A : Type) : Type :=
| Ok (a : A)
| Raise (e : exn).
Arguments Ok {A} a.
Arguments Raise {A} e.

Definition res_bind {A B} (r : Res A) (k : A -> Res B) : Res B :=
  match r with
  | Ok a => k a
  | Raise e => Raise e
  end.

#[global] Instance Res_bind : MBind Res := fun A B k r => res_bind r k.

(** ** _BufferPool *)

Module BufferPool.

Record t : Type := Make { _buffers_in_use : Z }.

(* __init__ *)
Definition init : t := Make 0.

Definition increment (self : t) : t :=
  Make (_buffers_in_use self + 1).

(* assert self._buffers_in_use > 0 *)
Definition decrement (self : t) : Res t :=
  if 0 <? _buffers_in_use self
  then Ok (Make (_buffers_in_use self - 1))
  else Raise AssertionError.

(* the property buffers_in_use: assert self._buffers_in_use >= 0 *)
Definition buffers_in_use (self : t) : Res bool :=
  if 0 <=? _buffers_in_use self
  then Ok (0 <? _buffers_in_use self)
  else Raise AssertionError.

Definition reset (self : t) : t := Make 0.

(** Sequences of calls on the pool. *)
Inductive op : Type := Increment | Decrement | InUse | Reset.

Definition step (o : op) (self : t) : Res t :=
  match o with
  | Increment => Ok (increment self)
  | Decrement => decrement self
  | InUse => res_bind (buffers_in_use self) (fun _ => Ok self)
  | Reset => Ok (reset self)
  end.

Fixpoint run (ops : list op) (self : t) : Res t :=
  match ops with
  | [] => Ok self
  | o :: ops' => res_bind (step o self) (run ops')
  end.

(** [matched n ops]: with [n] increments not yet matched, every
    [Decrement] of [ops] finds an earlier unmatched [Increment]
    (a [Reset] forgets the unmatched ones). *)
Fixpoint matched (n : nat) (ops : list op) : bool :=
  match ops with
  | [] => true
  | Increment :: ops' => matched (S n) ops'
  | Decrement :: ops' =>
      match n with
      | O => false
      | S n' => matched n' ops'
      end
  | InUse :: ops' => matched n ops'
  | Reset :: ops' => matched O ops'
  end.

End BufferPool.

(** ** Buffers handed over by the camera *)

(* genicam.gentl.PAYLOADTYPE_INFO_IDS *)
Inductive PAYLOADTYPE_INFO_IDS : Type :=
| PAYLOAD_TYPE_UNKNOWN
| PAYLOAD_TYPE_IMAGE
| PAYLOAD_TYPE_RAW_DATA
| PAYLOAD_TYPE_FILE
| PAYLOAD_TYPE_CHUNK_DATA
| PAYLOAD_TYPE_JPEG
| PAYLOAD_TYPE_JPEG2000
| PAYLOAD_TYPE_H264
| PAYLOAD_TYPE_CHUNK_ONLY
| PAYLOAD_TYPE_DEVICE_SPECIFIC
| PAYLOAD_TYPE_MULTI_PART.

#[global] Instance PAYLOADTYPE_INFO_IDS_eq_dec : EqDecision PAYLOADTYPE_INFO_IDS.
Proof. solve_decision. Defined.

Definition _VISIBLE_PAYLOADS : list PAYLOADTYPE_INFO_IDS :=
  [PAYLOAD_TYPE_IMAGE; PAYLOAD_TYPE_CHUNK_DATA; PAYLOAD_TYPE_MULTI_PART].

(** One component of a payload: what [ImageBuffer.image] reads from
    [payload.components[0]]. [data] is the one-dimensional sample array. *)
Record Component : Type := {
  width : nat;
  height : nat;
  data_format_value : Z;
  data_format : string;
  data : list Z;
  num_components_per_pixel : nat
}.

(** The buffer the event manager delivers ([event_manager.buffer]);
    [context] tells buffers of the ring apart. *)
Record GenicamBuffer : Type := {
  context : nat;
  is_complete : bool;
  payload_type : PAYLOADTYPE_INFO_IDS;
  components : list Component
}.

#[global] Instance Component_eq_dec : EqDecision Component.
Proof. solve_decision. Defined.

#[global] Instance GenicamBuffer_eq_dec : EqDecision GenicamBuffer.
Proof. solve_decision. Defined.

(** harvesters.core.Buffer, built by [Buffer(buffer=genicam_buffer, ...)]. *)
Record Buffer : Type := { raw_buffer : GenicamBuffer }.

(** ** ImageBuffer objects and the shared world *)

Record ImageBuffer : Type := {
  _i : Z;
  _buffer : option Buffer
}.

(** Calls that leave the module and signals that are emitted, in the order
    in which they happen. [Queue_buffer] is a buffer handed back to the
    hardware ring, [Emit_image_acquired a] carries the [ImageBuffer] stored
    at address [a]. *)
Inductive Event : Type :=
| Ia_start_acquisition
| Ia_stop_acquisition
| Ia_destroy
| Queue_buffer (b : GenicamBuffer)
| Emit_image_acquired (a : nat)
| Emit_done.

#[global] Instance Event_eq_dec : EqDecision Event.
Proof. solve_decision. Defined.

Record World : Type := {
  _BUFFER_BOOL : BufferPool.t;      (* the module-level singleton *)
  heap : list ImageBuffer;          (* the ImageBuffer objects, by address *)
  trace : list Event;
  num_images : Z                    (* self._ia.statistics *)
}.

Definition set_pool (p : BufferPool.t) (w : World) : World :=
  {| _BUFFER_BOOL := p; heap := heap w; trace := trace w;
     num_images := num_images w |}.

Definition set_heap (h : list ImageBuffer) (w : World) : World :=
  {| _BUFFER_BOOL := _BUFFER_BOOL w; heap := h; trace := trace w;
     num_images := num_images w |}.

Definition log (ev : Event) (w : World) : World :=
  {| _BUFFER_BOOL := _BUFFER_BOOL w; heap := heap w;
     trace := trace w ++ [ev]; num_images := num_images w |}.

(** State and exceptions: a computation returns a value or raises, and in
    both cases leaves the world it has reached. *)
Definition M (A : Type) : Type := World -> Res A * World.

Definition raise {A} (e : exn) : M A := fun w => (Raise e, w).
Definition modify (f : World -> World) : M unit := fun w => (Ok tt, f w).

#[global] Instance M_ret : MRet M := fun A a w => (Ok a, w).
#[global] Instance M_bind : MBind M := fun A B k m w =>
  match m w with
  | (Ok a, w') => k a w'
  | (Raise e, w') => (Raise e, w')
  end.

(* _BUFFER_BOOL.decrement() *)
Definition pool_decrement : M unit :=
  fun w =>
    match BufferPool.decrement (_BUFFER_BOOL w) with
    | Ok p => (Ok tt, set_pool p w)
    | Raise e => (Raise e, w)
    end.

(* ImageBuffer.__init__: returns the address of the new object *)
Definition ImageBuffer_init (i : Z) (buffer : Buffer) : M nat :=
  fun w =>
    let w1 := set_pool (BufferPool.increment (_BUFFER_BOOL w)) w in
    (Ok (length (heap w1)),
     set_heap (heap w1 ++ [{| _i := i; _buffer := Some buffer |}]) w1).

(* Buffer.queue() *)
Definition Buffer_queue (b : Buffer) : M unit :=
  modify (log (Queue_buffer (raw_buffer b))).

(** ImageBuffer.release, on the object at address [self]. An address
    that holds no object stands for no call at all. *)
Definition release (self : nat) : M unit :=
  fun w =>
    match heap w !! self with
    | None => (Ok tt, w)
    | Some obj =>
        (pool_decrement;;
         match _buffer obj with
         | None => raise AttributeError      (* None.queue() *)
         | Some b => Buffer_queue b
         end;;
         modify (fun w' =>
           set_heap (<[self := {| _i := _i obj; _buffer := None |}]> (heap w')) w')) w
    end.

(** ** ImageBuffer.image: the pixel normalisation *)

(** What [image] imports from harvesters.util.pfnc. The functions and
    tables belong to the harvesters library; the normalisation is embedded
    over any such tables. *)
Class Pfnc : Type := {
  is_custom : Z -> bool;
  get_bits_per_pixel : string -> option Z;
  mono_location_formats : list string;
  bayer_location_formats : list string;
  rgb_formats : list string;
  rgba_formats : list string;
  bgr_formats : list string;
  bgra_formats : list string
}.

(** A NumPy array: its shape, its elements in index order (last axis
    fastest), and its flag [flags.c_contiguous]: whether the memory behind
    the array holds the elements in that order. A view with a negative
    stride along an axis of more than one element does not. *)
Record ndarray : Type := {
  shape : list nat;
  elems : list Z;
  c_contiguous : bool
}.

(* ndarray.reshape: the sizes must agree *)
Definition reshape (a : list Z) (new_shape : list nat) : Res ndarray :=
  if (length a =? foldr Nat.mul 1%nat new_shape)%nat
  then Ok {| shape := new_shape; elems := a; c_contiguous := true |}
  else Raise ValueError.

(** [reverse_groups n c l] reverses each of the first [n] runs of [c]
    elements of [l]. *)
Fixpoint reverse_groups (n c : nat) (l : list Z) : list Z :=
  match n with
  | O => []
  | S n' => rev (take c l) ++ reverse_groups n' c (drop c l)
  end.

(** [content[:, :, ::-1]]: a view of the same memory with the stride of
    the last axis negated; nothing is copied. NumPy calls such a view
    C-contiguous only if it is empty or its last axis has one element. *)
Definition reverse_last_axis (a : ndarray) : Res ndarray :=
  match shape a with
  | [h; w; c] =>
      Ok {| shape := [h; w; c];
            elems := reverse_groups (h * w) c (elems a);
            c_contiguous := c_contiguous a
                            && ((h * w * c =? 0)%nat || (c =? 1)%nat) |}
  | _ => Raise IndexError
  end.

(** [content / (2**exponent)] followed by [astype(np.uint8)]: the quotient
    is exact in floating point for the integers a sample array holds, the
    cast drops the fraction and keeps the low 8 bits. Both steps allocate a
    new array, which is C-contiguous. *)
Definition to_8bit (exponent : Z) (v : Z) : Z :=
  (v ÷ 2 ^ exponent) `mod` 256.

Definition downscale (exponent : Z) (a : ndarray) : ndarray :=
  {| shape := shape a; elems := map (to_8bit exponent) (elems a);
     c_contiguous := true |}.

Inductive QImage_Format : Type :=
| Format_Indexed8
| Format_RGB888.

(** The arguments [QImage] is constructed from; [bits] is the memory
    behind [content.data], which for a C-contiguous array holds the
    elements of [content] in index order. *)
Record QImage : Type := {
  bits : list Z;
  qwidth : nat;
  qheight : nat;
  bytesPerLine : nat;
  qformat : QImage_Format
}.

Section Image.
Context `{Pfnc}.

(** Lines 104-133: the reshaped (and for BGR reordered) samples, or
    [None] where the function returns without an image. *)
Definition reshaped_content (component : Component) : Res (option ndarray) :=
  let data_format := data_format component in
  if bool_decide (data_format ∈ mono_location_formats)
     || bool_decide (data_format ∈ bayer_location_formats)
  then
    content ← reshape (data component) [height component; width component];
    Ok (Some content)
  else
    if bool_decide (data_format ∈ rgb_formats)
       || bool_decide (data_format ∈ rgba_formats)
       || bool_decide (data_format ∈ bgr_formats)
       || bool_decide (data_format ∈ bgra_formats)
    then
      content ← reshape (data component)
                  [height component; width component;
                   num_components_per_pixel component];
      if bool_decide (data_format ∈ bgr_formats)
      then content ← reverse_last_axis content; Ok (Some content)
      else Ok (Some content)
    else Ok None.

(** Lines 92-142: [content] as it stands before the [QImage] is built. *)
Definition content_8bit (component : Component) : Res (option ndarray) :=
  if is_custom (data_format_value component) then Ok None
  else
    match get_bits_per_pixel (data_format component) with
    | None => Ok None
    | Some bpp =>
        let exponent := bpp - 8 in
        content ← reshaped_content component;
        match content with
        | None => Ok None
        | Some content =>
            if 0 <? exponent
            then Ok (Some (downscale exponent content))
            else Ok (Some content)
        end
    end.

(** The property [image]; [Ok None] is the bare [return]. *)
Definition image (self : ImageBuffer) : Res (option QImage) :=
  match _buffer self with
  | None => Raise AttributeError
  | Some buffer =>
      match components (raw_buffer buffer) with
      | [] => Raise IndexError
      | component :: _ =>
          content ← content_8bit component;
          match content with
          | None => Ok None
          | Some content =>
              (* height2, width2, _ = content.shape *)
              match shape content with
              | [height2; width2; _] =>
                  (* QImage(content.data, ...) takes a C-contiguous buffer
                     only; the reversed view of line 131 is copied only
                     by lines 139-142 *)
                  if c_contiguous content
                  then Ok (Some {| bits := elems content;
                                   qwidth := width2;
                                   qheight := height2;
                                   bytesPerLine := 3 * width2;
                                   qformat := Format_RGB888 |})
                  else Raise TypeError
              | _ => Raise ValueError
              end
          end
      end
  end.

End Image.

(** ** ImageReaderThread *)

(** The fields of the thread object that the loop reads and writes.
    [_frame_per_s] only feeds the two waiting times, which are floating
    point and play no part in what follows; it is left out. *)
Record ImageReaderThread : Type := {
  _stop_acquisition : bool;
  _ia : option nat              (* the ImageAcquirer, or None *)
}.

(* ImageReaderThread.__init__ *)
Definition ImageReaderThread_init (ia : nat) (w : World)
  : ImageReaderThread * World :=
  ({| _stop_acquisition := false; _ia := Some ia |},
   set_pool (BufferPool.reset (_BUFFER_BOOL w)) w).

(* ImageReaderThread.stop_acquisition *)
Definition stop_acquisition (self : ImageReaderThread) : ImageReaderThread :=
  {| _stop_acquisition := true; _ia := _ia self |}.

(** What the rest of the program and the camera do around one iteration
    of the loop. The consumer's slot and the stop button run on another
    thread; a schedule fixes where their effects fall.
    - [consumer_releases]: the handles the consumer releases before the
      iteration starts;
    - [stop_pressed]: [stop_acquisition()] is called before the iteration
      starts;
    - [ia_is_acquiring]: the answer of [self._ia.is_acquiring()];
    - [wait]: how [msleep] and [update_event_data] end, with an exception
      or with a buffer in [event_manager.buffer];
    - [stop_pressed_during_wait]: [stop_acquisition()] is called while the
      loop waits. *)
Inductive Wait : Type :=
| Raises (e : exn)
| NewBuffer (genicam_buffer : GenicamBuffer).

Record Tick : Type := {
  consumer_releases : list nat;
  stop_pressed : bool;
  ia_is_acquiring : bool;
  wait : Wait;
  stop_pressed_during_wait : bool
}.

(** The consumer's releases; an exception raised in its slot stays there,
    the changes made before it remain. *)
Fixpoint consumer (handles : list nat) (w : World) : World :=
  match handles with
  | [] => w
  | a :: handles' => consumer handles' (release a w).2
  end.

Definition environment (t : Tick) (self : ImageReaderThread) (w : World)
  : ImageReaderThread * World :=
  (if stop_pressed t then stop_acquisition self else self,
   consumer (consumer_releases t) w).

(* genicam_buffer.parent.queue_buffer(genicam_buffer) *)
Definition queue_buffer (genicam_buffer : GenicamBuffer) (w : World) : World :=
  log (Queue_buffer genicam_buffer) w.

(* ImageReaderThread._update_statistics *)
Definition _update_statistics (buffer : Buffer) (w : World) : World :=
  {| _BUFFER_BOOL := _BUFFER_BOOL w; heap := heap w; trace := trace w;
     num_images := num_images w + 1 |}.

(** The nested function [handle_one_buffer]. Only [TimeoutException] is
    caught; any other exception leaves the function. *)
Definition handle_one_buffer (i : Z) (t : Tick)
    (self : ImageReaderThread) (w : World)
  : Res unit * ImageReaderThread * World :=
  let self :=
    if stop_pressed_during_wait t then stop_acquisition self else self in
  match wait t with
  | Raises TimeoutException => (Ok tt, self, w)
  | Raises e => (Raise e, self, w)
  | NewBuffer genicam_buffer =>
      if negb (is_complete genicam_buffer) then
        (Ok tt, self, queue_buffer genicam_buffer w)
      else if negb (bool_decide (payload_type genicam_buffer ∈ _VISIBLE_PAYLOADS)) then
        (Ok tt, self, queue_buffer genicam_buffer w)
      else if _stop_acquisition self then
        (Ok tt, self, queue_buffer genicam_buffer w)
      else
        let buffer := {| raw_buffer := genicam_buffer |} in
        let w := _update_statistics buffer w in
        match ImageBuffer_init i buffer w with
        | (Ok a, w) => (Ok tt, self, log (Emit_image_acquired a) w)
        | (Raise e, w) => (Raise e, self, w)
        end
  end.

Inductive Control : Type :=
| Continue
| Break
| Raised (e : exn).

(** One pass through the body of [for i in itertools.count()]. *)
Definition iteration (i : Z) (t : Tick)
    (self : ImageReaderThread) (w : World)
  : Control * ImageReaderThread * World :=
  if negb (ia_is_acquiring t) then (Break, self, w)
  else if _stop_acquisition self then
    (* waiting till all buffers has been displayed *)
    match BufferPool.buffers_in_use (_BUFFER_BOOL w) with
    | Raise e => (Raised e, self, w)
    | Ok true => (Break, self, log Ia_stop_acquisition w)
    | Ok false => (Break, self, w)
    end
  else
    match handle_one_buffer i t self w with
    | (Ok _, self, w) => (Continue, self, w)
    | (Raise e, self, w) => (Raised e, self, w)
    end.

(** How far the loop got on a schedule: it left through a [break], an
    exception left it, or the schedule ended with the loop still running
    and about to start iteration [i]. *)
Inductive LoopExit : Type :=
| Left_by_break
| Left_by_exception (e : exn)
| Still_looping (i : Z).

Fixpoint run_loop (i : Z) (schedule : list Tick)
    (self : ImageReaderThread) (w : World)
  : LoopExit * ImageReaderThread * World :=
  match schedule with
  | [] => (Still_looping i, self, w)
  | t :: schedule' =>
      let '(self, w) := environment t self w in
      match iteration i t self w with
      | (Continue, self, w) => run_loop (i + 1) schedule' self w
      | (Break, self, w) => (Left_by_break, self, w)
      | (Raised e, self, w) => (Left_by_exception e, self, w)
      end
  end.

(** Lines 234-237, after the loop. *)
Definition finalize (self : ImageReaderThread) (w : World)
  : ImageReaderThread * World :=
  let w := log Ia_destroy w in
  let self := {| _stop_acquisition := _stop_acquisition self; _ia := None |} in
  (self, log Emit_done w).

Inductive RunExit : Type :=
| Returned
| Propagated (e : exn)
| Running (i : Z).

(** ImageReaderThread.run on a schedule. *)
Definition run (schedule : list Tick) (self : ImageReaderThread) (w : World)
  : RunExit * ImageReaderThread * World :=
  match _ia self with
  | None => (Propagated AttributeError, self, w)
  | Some _ =>
      let w := log Ia_start_acquisition w in
      match run_loop 0 schedule self w with
      | (Left_by_break, self, w) =>
          let '(self, w) := finalize self w in (Returned, self, w)
      | (Left_by_exception e, self, w) => (Propagated e, self, w)
      | (Still_looping i, self, w) => (Running i, self, w)
      end
  end.

(** The frames announced so far and the sequence index each one carries. *)
Definition frame_events (tr : list Event) : list nat :=
  omap (fun ev => match ev with Emit_image_acquired a => Some a | _ => None end) tr.

Definition sequence_index (w : World) (a : nat) : option Z :=
  _i <$> heap w !! a.

Definition count_event (ev : Event) (tr : list Event) : nat :=
  length (filter (fun x => x = ev) tr).

(** ** The pixel formats used in the examples *)

(** An instance of [Pfnc] for the concrete examples: the entries of the
    tables of the harvesters library for the formats the examples use. The
    bit depth of a format is that of one component; a format that the
    library lists in none of its bit-depth tables, as it does BGR16, has
    none. A format value is custom when its top bit (of 32) is set. The
    library is not part of the repository; the general statements below
    hold for any tables. *)
Module Harvesters.

#[local] Open Scope string_scope.

Definition component_8bit_formats : list string :=
  ["Mono8"; "BayerRG8"; "RGB8"; "RGBa8"; "BGR8"; "BGRa8"].
Definition component_10bit_formats : list string :=
  ["Mono10"; "RGB10"].
Definition component_12bit_formats : list string :=
  ["Mono12"; "RGB12"].
Definition component_16bit_formats : list string :=
  ["Mono16"; "RGB16"].

#[global] Instance pfnc : Pfnc := {|
  is_custom v := (Z.land v 0x80000000 =? 0x80000000)%Z;
  get_bits_per_pixel f :=
    if bool_decide (f ∈ component_8bit_formats) then Some 8
    else if bool_decide (f ∈ component_10bit_formats) then Some 10
    else if bool_decide (f ∈ component_12bit_formats) then Some 12
    else if bool_decide (f ∈ component_16bit_formats) then Some 16
    else None;
  mono_location_formats := ["Mono8"; "Mono10"; "Mono12"; "Mono16"];
  bayer_location_formats := ["BayerRG8"];
  rgb_formats := ["RGB8"; "RGB10"; "RGB12"; "RGB16"];
  rgba_formats := ["RGBa8"];
  bgr_formats := ["BGR8"; "BGR16"];
  bgra_formats := ["BGRa8"]
|}.

(** A complete image buffer with one component. *)
Definition component (f : string) (w h c : nat) (d : list Z) : Component :=
  {| width := w; height := h; data_format_value := 0;
     data_format := f; data := d; num_components_per_pixel := c |}.

Definition image_buffer (ctx : nat) (comp : Component) : GenicamBuffer :=
  {| context := ctx; is_complete := true;
     payload_type := PAYLOAD_TYPE_IMAGE; components := [comp] |}.

Definition handle (i : Z) (comp : Component) : ImageBuffer :=
  {| _i := i; _buffer := Some {| raw_buffer := image_buffer 0 comp |} |}.

End Harvesters.


(** ** What the specification asks of a BGR or BGRA payload *)

(** Written from the specification's words, for comparison with [image]:
    of each of the [n] pixels of [c] components, the first three components
    in reverse order, the alpha component dropped. *)
Fixpoint spec_bgr_to_rgb (n c : nat) (l : list Z) : list Z :=
  match n with
  | O => []
  | S n' => rev (take 3 (take c l)) ++ spec_bgr_to_rgb n' c (drop c l)
  end.

(** The samples of BGR pixels and of the same pixels in RGB order. *)
Definition bgr_samples (pixels : list (Z * Z * Z)) : list Z :=
  flat_map (fun '(r, g, b) => [b; g; r]) pixels.

Definition rgb_samples (pixels : list (Z * Z * Z)) : list Z :=
  flat_map (fun '(r, g, b) => [r; g; b]) pixels.

(** Lines 136-142 on one sample. *)
Definition scaled (bpp : Z) (v : Z) : Z :=
  if 0 <? bpp - 8 then to_8bit (bpp - 8) v else v.

(** ** Observations on a world *)

(** The value of the pool counter. *)
Definition in_flight (w : World) : Z :=
  BufferPool._buffers_in_use (_BUFFER_BOOL w).

(** The empty world of a freshly loaded module. *)
Definition initial_world : World :=
  {| _BUFFER_BOOL := BufferPool.init; heap := []; trace := []; num_images := 0 |}.

(** The buffer of the examples on handles. *)
Definition sample_buffer : Buffer :=
  {| raw_buffer :=
       Harvesters.image_buffer 3
         (Harvesters.component "RGB8" 1 1 3 [1; 2; 3]) |}.

(** The events the loop and the consumer add to the trace. *)
Definition loop_event (ev : Event) : Prop :=
  match ev with
  | Queue_buffer _ | Emit_image_acquired _ | Ia_stop_acquisition => True
  | _ => False
  end.

(** [w'] comes after [w]: handles keep their address and index, the trace
    grows by [tr], and a counter that was not negative is not negative. *)
Record follows (w w' : World) (tr : list Event) : Prop := {
  follows_index : forall a j, sequence_index w a = Some j -> sequence_index w' a = Some j;
  follows_heap : (length (heap w) <= length (heap w'))%nat;
  follows_trace : trace w' = trace w ++ tr;
  follows_pool : 0 <= in_flight w -> 0 <= in_flight w'
}.

(** ** ImageReaderThread.statistics *)

(** What [statistics] reads off the camera besides the image count: the
    node map values, and the two floating-point figures as the text Python
    formats them to. *)
Record CameraView : Type := {
  Width : Z;
  Height : Z;
  PixelFormat : string;
  fps_text : string;        (* f"{self._ia.statistics.fps:.1f}" *)
  elapsed_text : string     (* str(timedelta(seconds=int(elapsed_time_s))) *)
}.

(* the property statistics *)
Definition statistics (self : ImageReaderThread) (view : CameraView) (w : World)
  : string :=
  match _ia self with
  | None => "stopped"
  | Some _ =>
      let list_labels :=
        [String.append (pretty (Width view))
           (String.append "x" (pretty (Height view)));
         PixelFormat view;
         String.append (fps_text view) " fps";
         String.append "elapsed " (elapsed_text view);
         String.append (pretty (num_images w)) " images"] in
      String.concat " " list_labels
  end.

(** Whether a character occurs in a string. *)
Fixpoint occurs (c : Ascii.ascii) (s : string) : bool :=
  match s with
  | EmptyString => false
  | String c' s' => bool_decide (c = c') || occurs c s'
  end.

(** ** main.py: the window's state and its slots *)

Inductive EnumRunning : Type :=
| STARTED
| STOPPED
| INTRANSITION.

#[global] Instance EnumRunning_eq_dec : EqDecision EnumRunning.
Proof. solve_decision. Defined.

Definition button_start_enabled (self : EnumRunning) : bool :=
  bool_decide (self = STOPPED).

Definition button_stop_enabled (self : EnumRunning) : bool :=
  bool_decide (self = STARTED).

(** The widgets of [Ui_MainWindow] the slots touch: whether each button is
    enabled, the messages the status bar was given and the images the
    viewer was given, oldest first. *)
Record Ui_MainWindow : Type := {
  startButton : bool;
  stopButton : bool;
  statusbar : list string;
  imageviewer : list QImage
}.

(** Calls of [HarvesterMain] that leave the program. *)
Inductive MainCall : Type :=
| Create_image_acquirer (ia : nat)
| Thread_start (thread : nat)
| Harvester_reset.

(** [HarvesterMain]: [_state_running] is the [_state] of its
    [StateRunning]; [threads] holds the thread objects created so far, by
    address, and [world] the module state of image_buffer.py. *)
Record HarvesterMain : Type := {
  _ui : Ui_MainWindow;
  _state_running : EnumRunning;
  _image_reader_thread : option nat;
  threads : list ImageReaderThread;
  world : World;
  calls : list MainCall
}.

(* StateRunning.update *)
Definition update (new_state : EnumRunning) (m : HarvesterMain) : HarvesterMain :=
  {| _ui := {| startButton := button_start_enabled new_state;
               stopButton := button_stop_enabled new_state;
               statusbar := statusbar (_ui m);
               imageviewer := imageviewer (_ui m) |};
     _state_running := new_state;
     _image_reader_thread := _image_reader_thread m;
     threads := threads m;
     world := world m;
     calls := calls m |}.

(** [HarvesterMain.__init__], as far as the slots see it; [buttons] are
    the states the designer file gave the two buttons. *)
Definition HarvesterMain_init (buttons : bool * bool) (w : World) : HarvesterMain :=
  update STOPPED
    {| _ui := {| startButton := buttons.1; stopButton := buttons.2;
                 statusbar := []; imageviewer := [] |};
       _state_running := STOPPED;
       _image_reader_thread := None;
       threads := [];
       world := w;
       calls := [] |}.

(** The slot [start]; [ia] is the acquirer [create_image_acquirer]
    returns. [CameraSimulation.configure] does nothing. *)
Definition start (ia : nat) (m : HarvesterMain) : HarvesterMain :=
  let '(thread, w) := ImageReaderThread_init ia (world m) in
  update STARTED
    {| _ui := _ui m;
       _state_running := _state_running m;
       _image_reader_thread := Some (length (threads m));
       threads := threads m ++ [thread];
       world := w;
       calls := calls m ++ [Create_image_acquirer ia;
                            Thread_start (length (threads m))] |}.

(** The slot [stop]. *)
Definition stop (m : HarvesterMain) : HarvesterMain :=
  match _image_reader_thread m with
  | None => m
  | Some n =>
      let m := update INTRANSITION m in
      {| _ui := _ui m;
         _state_running := _state_running m;
         _image_reader_thread := None;
         threads := alter stop_acquisition n (threads m);
         world := world m;
         calls := calls m ++ [Harvester_reset] |}
  end.

(** The slot [done]. *)
Definition done (m : HarvesterMain) : HarvesterMain := update STOPPED m.

Definition set_world (w : World) (m : HarvesterMain) : HarvesterMain :=
  {| _ui := _ui m; _state_running := _state_running m;
     _image_reader_thread := _image_reader_thread m;
     threads := threads m; world := w; calls := calls m |}.

(* self._ui.imageviewer.setImage(image) *)
Definition show_image (q : QImage) (m : HarvesterMain) : HarvesterMain :=
  {| _ui := {| startButton := startButton (_ui m);
               stopButton := stopButton (_ui m);
               statusbar := statusbar (_ui m);
               imageviewer := imageviewer (_ui m) ++ [q] |};
     _state_running := _state_running m;
     _image_reader_thread := _image_reader_thread m;
     threads := threads m; world := world m; calls := calls m |}.

(* self._ui.statusbar.showMessage(statistics) *)
Definition show_message (msg : string) (m : HarvesterMain) : HarvesterMain :=
  {| _ui := {| startButton := startButton (_ui m);
               stopButton := stopButton (_ui m);
               statusbar := statusbar (_ui m) ++ [msg];
               imageviewer := imageviewer (_ui m) |};
     _state_running := _state_running m;
     _image_reader_thread := _image_reader_thread m;
     threads := threads m; world := world m; calls := calls m |}.

(** The slot [image_acquired], for the handle at address [a]; as for
    [release], an address that holds no object stands for no call. *)
Definition image_acquired `{Pfnc} (a : nat) (m : HarvesterMain)
  : Res unit * HarvesterMain :=
  match heap (world m) !! a with
  | None => (Ok tt, m)
  | Some image_buffer =>
      match image image_buffer with
      | Raise e => (Raise e, m)
      | Ok None => (Raise AssertionError, m)     (* assert image is not None *)
      | Ok (Some q) =>
          let m := show_image q m in
          let '(r, w) := release a (world m) in
          (r, set_world w m)
      end
  end.

(** [_worker_update_statistics], with what the camera reports. *)
Definition _worker_update_statistics (view : CameraView) (m : HarvesterMain)
  : HarvesterMain :=
  match _image_reader_thread m with
  | None => m
  | Some n =>
      match threads m !! n with
      | None => m
      | Some thread => show_message (statistics thread view (world m)) m
      end
  end.

(** The thread at address [n] runs through [schedule]; the thread object
    and the world are left as [run] leaves them. *)
Definition thread_runs (n : nat) (schedule : list Tick) (m : HarvesterMain)
  : HarvesterMain :=
  match threads m !! n with
  | None => m
  | Some thread =>
      let '(_, thread, w) := run schedule thread (world m) in
      {| _ui := _ui m; _state_running := _state_running m;
         _image_reader_thread := _image_reader_thread m;
         threads := <[n := thread]> (threads m);
         world := w; calls := calls m |}
  end.

(** What can happen to the window, one at a time: a button is pressed, a
    signal of a reader thread is delivered, the statistics timer fires, or
    a reader thread runs through a schedule. *)
Inductive Happening : Type :=
| Start_pressed (ia : nat)
| Stop_pressed
| Done_delivered
| Image_acquired_delivered (a : nat)
| Timer_fired (view : CameraView)
| Thread_ran (n : nat) (schedule : list Tick).

(** An exception raised in a slot stays in the slot; what the slot had
    done by then remains. *)
Definition happen `{Pfnc} (h : Happening) (m : HarvesterMain) : HarvesterMain :=
  match h with
  | Start_pressed ia => start ia m
  | Stop_pressed => stop m
  | Done_delivered => done m
  | Image_acquired_delivered a => (image_acquired a m).2
  | Timer_fired view => _worker_update_statistics view m
  | Thread_ran n schedule => thread_runs n schedule m
  end.

Definition history `{Pfnc} (hs : list Happening) (m : HarvesterMain)
  : HarvesterMain :=
  foldl (fun m h => happen h m) m hs.

Definition is_start (h : Happening) : bool :=
  match h with Start_pressed _ => true | _ => false end.

(** What every slot keeps true of the window. *)
Definition window_ok (m : HarvesterMain) : Prop :=
  startButton (_ui m) = button_start_enabled (_state_running m)
  /\ stopButton (_ui m) = button_stop_enabled (_state_running m)
  /\ (_state_running m = STARTED -> is_Some (_image_reader_thread m))
  /\ (_state_running m = INTRANSITION -> _image_reader_thread m = None)
  /\ (forall n, _image_reader_thread m = Some n -> is_Some (threads m !! n)).

(** ** util_qt/qtimageviewer.py: QtImageViewer *)

Module Viewer.

(** A pixmap is taken to be the image it was made from. *)
Record QPixmap : Type := { fromImage : QImage }.

(** What [setImage] may be handed. *)
Inductive Picture : Type :=
| A_QImage (image : QImage)
| A_QPixmap (pixmap : QPixmap)
| Something_else.

(* QRectF(pixmap.rect()) *)
Record QRectF : Type := { rx : Z; ry : Z; rwidth : nat; rheight : nat }.

#[global] Instance QRectF_eq_dec : EqDecision QRectF.
Proof. solve_decision. Defined.

Definition rect (pixmap : QPixmap) : QRectF :=
  {| rx := 0; ry := 0;
     rwidth := qwidth (fromImage pixmap);
     rheight := qheight (fromImage pixmap) |}.

Inductive MouseButton : Type := LeftButton | RightButton | OtherButton.

Inductive DragMode : Type := NoDrag | ScrollHandDrag | RubberBandDrag.

(** The two factors [wheelEvent] scales by: [_ZOOM_FACTOR] and its
    reciprocal. *)
Inductive Zoom : Type := By_ZOOM_FACTOR | By_its_reciprocal.

(** Calls on the view that change what is shown, and signals emitted with
    the scene position of the mouse, in order. *)
Inductive ViewCall : Type :=
| FitInView (r : QRectF)                 (* with _ASPECT_RATIO_MODE *)
| Scale (zoom : Zoom)
| Emit_pressed (button : MouseButton) (x y : Z)
| Emit_released (button : MouseButton) (x y : Z)
| Emit_double_clicked (button : MouseButton) (x y : Z).

Record t : Type := {
  _pixmapHandle : option QPixmap;
  sceneRect : QRectF;
  canZoom : bool;
  canPan : bool;
  _is_zooming : bool;
  dragMode : DragMode;
  view_calls : list ViewCall
}.

(** [__init__]; [r0] and [d0] are the scene rectangle and the drag mode
    of a new [QGraphicsView]. *)
Definition init (r0 : QRectF) (d0 : DragMode) : t :=
  {| _pixmapHandle := None; sceneRect := r0;
     canZoom := true; canPan := true; _is_zooming := false;
     dragMode := d0; view_calls := [] |}.

Definition hasPixmap (self : t) : bool :=
  bool_decide (_pixmapHandle self <> None).

Definition clearImage (self : t) : t :=
  if hasPixmap self then
    {| _pixmapHandle := None; sceneRect := sceneRect self;
       canZoom := canZoom self; canPan := canPan self;
       _is_zooming := _is_zooming self; dragMode := dragMode self;
       view_calls := view_calls self |}
  else self.

Definition pixmap (self : t) : option QPixmap :=
  if hasPixmap self then _pixmapHandle self else None.

Definition call (c : ViewCall) (self : t) : t :=
  {| _pixmapHandle := _pixmapHandle self; sceneRect := sceneRect self;
     canZoom := canZoom self; canPan := canPan self;
     _is_zooming := _is_zooming self; dragMode := dragMode self;
     view_calls := view_calls self ++ [c] |}.

Definition updateViewer (self : t) : t :=
  if negb (hasPixmap self) then self
  else if negb (_is_zooming self) then call (FitInView (sceneRect self)) self
  else self.

Definition setImage (image : Picture) (self : t) : Res unit * t :=
  let pixmap :=
    match image with
    | A_QImage q => Some {| fromImage := q |}
    | A_QPixmap p => Some p
    | Something_else => None
    end in
  match pixmap with
  | None => (Raise AssertionError, self)    (* assert isinstance(pixmap, QPixmap) *)
  | Some pixmap =>
      let rectNew := rect pixmap in
      let rectBefore := if hasPixmap self then Some (sceneRect self) else None in
      let self :=
        {| _pixmapHandle := Some pixmap; sceneRect := sceneRect self;
           canZoom := canZoom self; canPan := canPan self;
           _is_zooming := _is_zooming self; dragMode := dragMode self;
           view_calls := view_calls self |} in
      if bool_decide (rectBefore <> Some rectNew) then
        (Ok tt,
         updateViewer
           {| _pixmapHandle := _pixmapHandle self; sceneRect := rect pixmap;
              canZoom := canZoom self; canPan := canPan self;
              _is_zooming := _is_zooming self; dragMode := dragMode self;
              view_calls := view_calls self |})
      else (Ok tt, self)
  end.

Definition resizeEvent (self : t) : t := updateViewer self.

Definition setDragMode (d : DragMode) (self : t) : t :=
  {| _pixmapHandle := _pixmapHandle self; sceneRect := sceneRect self;
     canZoom := canZoom self; canPan := canPan self;
     _is_zooming := _is_zooming self; dragMode := d;
     view_calls := view_calls self |}.

Definition set_is_zooming (b : bool) (self : t) : t :=
  {| _pixmapHandle := _pixmapHandle self; sceneRect := sceneRect self;
     canZoom := canZoom self; canPan := canPan self;
     _is_zooming := b; dragMode := dragMode self;
     view_calls := view_calls self |}.

(** The mouse handlers; [x], [y] are the scene position of the event. The
    handlers of [QGraphicsView] they call besides are left to Qt. *)
Definition mousePressEvent (button : MouseButton) (x y : Z) (self : t) : t :=
  match button with
  | LeftButton =>
      let self := if canPan self then setDragMode ScrollHandDrag self else self in
      call (Emit_pressed LeftButton x y) self
  | _ => self
  end.

Definition mouseReleaseEvent (button : MouseButton) (x y : Z) (self : t) : t :=
  match button with
  | LeftButton => call (Emit_released LeftButton x y) (setDragMode NoDrag self)
  | RightButton => call (Emit_released RightButton x y) (setDragMode NoDrag self)
  | OtherButton => self
  end.

Definition mouseDoubleClickEvent (button : MouseButton) (x y : Z) (self : t) : t :=
  match button with
  | LeftButton =>
      let self := call (Emit_double_clicked LeftButton x y) self in
      if canZoom self then updateViewer (set_is_zooming false self) else self
  | RightButton => call (Emit_double_clicked RightButton x y) self
  | OtherButton => self
  end.

(* [angleDelta_y] is event.angleDelta().y() *)
Definition wheelEvent (angleDelta_y : Z) (self : t) : t :=
  if canZoom self then
    call (Scale (if 0 <? angleDelta_y then By_ZOOM_FACTOR else By_its_reciprocal))
      (set_is_zooming true self)
  else self.

(** What the user and the program do to a viewer. *)
Inductive Action : Type :=
| SetImage (image : Picture)
| ClearImage
| Resize
| Press (button : MouseButton) (x y : Z)
| Release (button : MouseButton) (x y : Z)
| DoubleClick (button : MouseButton) (x y : Z)
| Wheel (angleDelta_y : Z).

Definition act (a : Action) (self : t) : t :=
  match a with
  | SetImage image => (setImage image self).2
  | ClearImage => clearImage self
  | Resize => resizeEvent self
  | Press b x y => mousePressEvent b x y self
  | Release b x y => mouseReleaseEvent b x y self
  | DoubleClick b x y => mouseDoubleClickEvent b x y self
  | Wheel d => wheelEvent d self
  end.

Definition acts (l : list Action) (self : t) : t :=
  foldl (fun self a => act a self) self l.

Definition is_fit (c : ViewCall) : bool :=
  match c with FitInView _ => true | _ => false end.

Definition is_left_double_click (a : Action) : bool :=
  match a with DoubleClick LeftButton _ _ => true | _ => false end.


End Viewer.

(** ** camera_config.py *)

Module Camera_config.

(* genapi.EAccessMode *)
Inductive EAccessMode : Type :=
| NI | NA | WO | RO | RW | _UndefinedAccesMode | _CycleDetectAccesMode.

#[global] Instance EAccessMode_eq_dec : EqDecision EAccessMode.
Proof. solve_decision. Defined.

(** The nodes of the camera's node map that [configure] touches: the value
    of each, and the access mode of [PixelFormat]. The frame rate, a
    float that is only stored, is the rational it denotes. *)
Record NodeMap : Type := {
  AcquisitionMode : string;
  AcquisitionFrameRate : Q;
  AcquisitionFrameRateEnable : bool;
  ExposureTime : Z;
  PixelFormat : string;
  PixelFormat_access_mode : EAccessMode
}.

(* CameraBasler.FRAME_PER_S *)
Definition FRAME_PER_S : Q := 10%Q.

Definition could_not_set : string :=
  "****************************** COULD NOT SET PixelFormat !!!".

Definition set_PixelFormat (value : string) (node_map : NodeMap) : NodeMap :=
  {| AcquisitionMode := AcquisitionMode node_map;
     AcquisitionFrameRate := AcquisitionFrameRate node_map;
     AcquisitionFrameRateEnable := AcquisitionFrameRateEnable node_map;
     ExposureTime := ExposureTime node_map;
     PixelFormat := value;
     PixelFormat_access_mode := PixelFormat_access_mode node_map |}.

(** [CameraBasler.configure] on the node map of the acquirer: the node map
    it leaves and the lines it prints. *)
Definition configure (node_map : NodeMap) : NodeMap * list string :=
  let node_map :=
    {| AcquisitionMode := "Continuous";
       AcquisitionFrameRate := FRAME_PER_S;
       AcquisitionFrameRateEnable := true;
       ExposureTime := 10000;
       PixelFormat := PixelFormat node_map;
       PixelFormat_access_mode := PixelFormat_access_mode node_map |} in
  let printed := [PixelFormat node_map] in
  if bool_decide (PixelFormat node_map <> "RGB8"%string) then
    let access_mode := PixelFormat_access_mode node_map in
    if bool_decide (access_mode ∈ [WO; RW]) then
      let node_map := set_PixelFormat "RGB8" node_map in
      (node_map, printed ++ [PixelFormat node_map])
    else
      (node_map, printed ++ [could_not_set; PixelFormat node_map])
  else (node_map, printed).

(* CameraSimulation.configure *)
Definition configure_simulation (node_map : NodeMap) : NodeMap * list string :=
  (node_map, []).

End Camera_config.

(** ** Counting what a run has done *)

(** The number of frames announced so far. *)
Definition frames_announced (w : World) : nat :=
  length (frame_events (trace w)).

(** From [w] to [w'], [k] frames were announced, as many images counted
    and as many handles created, and the pool counter rose by at most [k]
    (by exactly [k] where [exact] is set). *)
Definition tally (exact : bool) (k : nat) (w w' : World) : Prop :=
  frames_announced w' = (frames_announced w + k)%nat
  /\ num_images w' = num_images w + Z.of_nat k
  /\ length (heap w') = (length (heap w) + k)%nat
  /\ (if exact then in_flight w' = in_flight w + Z.of_nat k
      else in_flight w' <= in_flight w + Z.of_nat k).

(** No tick of the schedule has the consumer release a handle. *)
Definition consumer_idle (schedule : list Tick) : Prop :=
  Forall (fun t => consumer_releases t = []) schedule.

(** ** Schedules used in the examples *)

Definition sample_frame (ctx : nat) : GenicamBuffer :=
  Harvesters.image_buffer ctx (Harvesters.component "RGB8" 1 1 3 [1; 2; 3]).

(** The camera delivers a complete image buffer. *)
Definition tick_frame (ctx : nat) : Tick :=
  {| consumer_releases := []; stop_pressed := false; ia_is_acquiring := true;
     wait := NewBuffer (sample_frame ctx); stop_pressed_during_wait := false |}.

(** The camera delivers an incomplete buffer. *)
Definition tick_incomplete (ctx : nat) : Tick :=
  {| consumer_releases := []; stop_pressed := false; ia_is_acquiring := true;
     wait := NewBuffer {| context := ctx; is_complete := false;
                          payload_type := PAYLOAD_TYPE_IMAGE;
                          components := [] |};
     stop_pressed_during_wait := false |}.

(** No buffer arrives in time. *)
Definition tick_timeout : Tick :=
  {| consumer_releases := []; stop_pressed := false; ia_is_acquiring := true;
     wait := Raises TimeoutException; stop_pressed_during_wait := false |}.

(** Waiting for the buffer fails with another exception. *)
Definition tick_failure : Tick :=
  {| consumer_releases := []; stop_pressed := false; ia_is_acquiring := true;
     wait := Raises GenericException; stop_pressed_during_wait := false |}.

(** The stop button is pressed; the consumer has released [handles]. *)
Definition tick_stop (handles : list nat) : Tick :=
  {| consumer_releases := handles; stop_pressed := true; ia_is_acquiring := true;
     wait := Raises TimeoutException; stop_pressed_during_wait := false |}.

(** A new thread object in the freshly loaded module. *)
Definition fresh_thread : ImageReaderThread * World :=
  ImageReaderThread_init 0 initial_world.

(** Closes a decidable goal on concrete data by evaluation. *)
Ltac by_evaluation := apply (bool_decide_unpack _); vm_compute; exact I.

(** * Properties *)

(** ** The buffer pool *)

Section PoolFacts.
Import BufferPool.

Lemma matched_app n ops1 ops2 :
  matched n (ops1 ++ ops2) = true -> matched n ops1 = true.
Proof.
  revert n. induction ops1 as [|o ops1 IH]; intros n; simpl; [done|].
  destruct o; try apply IH.
  destruct n; [done | apply IH].
Qed.

Lemma run_matched ops : forall n self,
  _buffers_in_use self = Z.of_nat n ->
  matched n ops = true ->
  exists self', BufferPool.run ops self = Ok self' /\ 0 <= _buffers_in_use self'.
Proof.
  induction ops as [|o ops IH]; intros n self Hn Hm; simpl in *.
  - exists self. split; [done | lia].
  - destruct o; simpl.
    + apply (IH (S n)); [simpl; lia | done].
    + destruct n as [|n']; [done|].
      unfold decrement. rewrite Hn.
      destruct (Z.ltb_spec 0 (Z.of_nat (S n'))); [|lia].
      simpl. apply (IH n'); [simpl; lia | done].
    + unfold buffers_in_use. rewrite Hn.
      destruct (Z.leb_spec 0 (Z.of_nat n)); [|lia].
      simpl. by apply (IH n).
    + by apply (IH O).
Qed.

(** Whatever the calls, a counter that is not negative stays so: the
    only call that lowers it refuses to run at zero. *)
Lemma step_nonneg o self self' :
  0 <= _buffers_in_use self -> step o self = Ok self' ->
  0 <= _buffers_in_use self'.
Proof.
  intros Hp. destruct o; simpl.
  - intros [= <-]. simpl. lia.
  - unfold decrement. destruct (Z.ltb_spec 0 (_buffers_in_use self)); [|done].
    intros [= <-]. simpl. lia.
  - unfold buffers_in_use. destruct (0 <=? _buffers_in_use self); [|done].
    simpl. by intros [= <-].
  - intros [= <-]. simpl. lia.
Qed.

Lemma run_nonneg ops : forall self self',
  0 <= _buffers_in_use self -> BufferPool.run ops self = Ok self' ->
  0 <= _buffers_in_use self'.
Proof.
  induction ops as [|o ops IH]; intros self self' Hp; simpl.
  - by intros [= <-].
  - destruct (step o self) as [s1|e] eqn:E; simpl; [|done].
    apply IH. by eapply step_nonneg.
Qed.

Lemma in_use_iff self :
  0 <= _buffers_in_use self ->
  exists b, buffers_in_use self = Ok b /\ (b = true <-> 0 < _buffers_in_use self).
Proof.
  intros Hp. unfold buffers_in_use.
  destruct (Z.leb_spec 0 (_buffers_in_use self)); [|lia].
  eexists; split; [done|]. apply Z.ltb_lt.
Qed.

Lemma decrement_at_zero self :
  _buffers_in_use self <= 0 -> decrement self = Raise AssertionError.
Proof.
  intros Hp. unfold decrement.
  by destruct (Z.ltb_spec 0 (_buffers_in_use self)); [lia|].
Qed.

End PoolFacts.

(** C5. Starting from [reset], along every sequence of pool calls in which
    each decrement follows a matching increment, every call succeeds, the
    counter is never negative and [buffers_in_use] answers true exactly
    when the counter is positive; on any sequence at all the counter is
    never negative; and a decrement at zero raises the assertion error
    instead of lowering the counter. *)
Theorem pool_counter_never_negative :
  (forall (p0 : BufferPool.t) (ops1 ops2 : list BufferPool.op),
      BufferPool.matched 0 (ops1 ++ ops2) = true ->
      exists p,
        BufferPool.run ops1 (BufferPool.reset p0) = Ok p
        /\ 0 <= BufferPool._buffers_in_use p
        /\ exists b, BufferPool.buffers_in_use p = Ok b
                     /\ (b = true <-> 0 < BufferPool._buffers_in_use p))
  /\ (forall (p0 p : BufferPool.t) (ops : list BufferPool.op),
        BufferPool.run ops (BufferPool.reset p0) = Ok p ->
        0 <= BufferPool._buffers_in_use p
        /\ exists b, BufferPool.buffers_in_use p = Ok b
                     /\ (b = true <-> 0 < BufferPool._buffers_in_use p))
  /\ (forall p : BufferPool.t,
        BufferPool._buffers_in_use p = 0 ->
        BufferPool.decrement p = Raise AssertionError).
Proof.
  split; [|split].
  - intros p0 ops1 ops2 Hm.
    apply matched_app in Hm.
    destruct (run_matched ops1 0 (BufferPool.reset p0) eq_refl Hm) as (p & Hrun & Hp).
    exists p. split; [done|]. split; [done|]. by apply in_use_iff.
  - intros p0 p ops Hrun.
    assert (0 <= BufferPool._buffers_in_use p) as Hp
      by (eapply run_nonneg; [|exact Hrun]; simpl; lia).
    split; [done|]. by apply in_use_iff.
  - intros p Hp. apply decrement_at_zero. lia.
Qed.

Lemma pool_counter_never_negative_witness :
  (exists p,
      BufferPool.run
        [BufferPool.Increment; BufferPool.Increment; BufferPool.Decrement]
        (BufferPool.reset (BufferPool.Make 7)) = Ok p
      /\ 0 <= BufferPool._buffers_in_use p
      /\ exists b, BufferPool.buffers_in_use p = Ok b
                   /\ (b = true <-> 0 < BufferPool._buffers_in_use p))
  /\ BufferPool.decrement (BufferPool.Make 0) = Raise AssertionError.
Proof.
  split.
  - apply (proj1 pool_counter_never_negative (BufferPool.Make 7)
             [BufferPool.Increment; BufferPool.Increment; BufferPool.Decrement]
             [BufferPool.InUse; BufferPool.Decrement]).
    reflexivity.
  - apply (proj2 (proj2 pool_counter_never_negative) (BufferPool.Make 0)).
    reflexivity.
Defined.

(** ** Frame handles *)

Lemma release_unknown (a : nat) (w : World) :
  heap w !! a = None -> release a w = (Ok tt, w).
Proof. intros Hl. unfold release. by rewrite Hl. Qed.

Lemma release_at_zero (a : nat) (obj : ImageBuffer) (w : World) :
  heap w !! a = Some obj -> in_flight w <= 0 ->
  release a w = (Raise AssertionError, w).
Proof.
  intros Hl Hp. unfold release. rewrite Hl.
  unfold mbind, M_bind, pool_decrement.
  by rewrite decrement_at_zero.
Qed.

Lemma release_live (a : nat) (obj : ImageBuffer) (b : Buffer) (w : World) :
  heap w !! a = Some obj -> _buffer obj = Some b -> 0 < in_flight w ->
  release a w =
    (Ok tt,
     {| _BUFFER_BOOL := BufferPool.Make (in_flight w - 1);
        heap := <[a := {| _i := _i obj; _buffer := None |}]> (heap w);
        trace := trace w ++ [Queue_buffer (raw_buffer b)];
        num_images := num_images w |}).
Proof.
  intros Hl Hb Hp. unfold release. rewrite Hl, Hb.
  unfold mbind, M_bind, pool_decrement, BufferPool.decrement.
  unfold in_flight in Hp.
  destruct (Z.ltb_spec 0 (BufferPool._buffers_in_use (_BUFFER_BOOL w))); [|lia].
  reflexivity.
Qed.

Lemma release_released (a : nat) (obj : ImageBuffer) (w : World) :
  heap w !! a = Some obj -> _buffer obj = None -> 0 < in_flight w ->
  release a w =
    (Raise AttributeError, set_pool (BufferPool.Make (in_flight w - 1)) w).
Proof.
  intros Hl Hb Hp. unfold release. rewrite Hl, Hb.
  unfold mbind, M_bind, pool_decrement, BufferPool.decrement.
  unfold in_flight in Hp.
  destruct (Z.ltb_spec 0 (BufferPool._buffers_in_use (_BUFFER_BOOL w))); [|lia].
  reflexivity.
Qed.

Lemma release_twice_raises (a : nat) (obj : ImageBuffer) (w : World) :
  heap w !! a = Some obj -> _buffer obj = None ->
  exists e w',
    release a w = (Raise e, w')
    /\ trace w' = trace w
    /\ heap w' = heap w
    /\ e = (if 0 <? in_flight w then AttributeError else AssertionError)
    /\ in_flight w' = (if 0 <? in_flight w then in_flight w - 1 else in_flight w).
Proof.
  intros Hl Hb. destruct (Z.ltb_spec 0 (in_flight w)) as [Hp|Hp].
  - rewrite (release_released a obj w Hl Hb Hp). by eexists _, _.
  - rewrite (release_at_zero a obj w Hl Hp). by eexists _, _.
Qed.

(** C6, as the code has it. A first release made while the pool counter is
    positive lowers the counter by one, hands the buffer back to the ring
    and clears the handle; from then on, in whatever world the handle is
    released again, the call raises (the assertion error at counter zero,
    otherwise the attribute error of [None.queue()]) and no buffer is
    queued a second time. *)
Theorem release_is_single_use :
  forall (w : World) (a : nat) (obj : ImageBuffer) (b : Buffer),
    heap w !! a = Some obj -> _buffer obj = Some b -> 0 < in_flight w ->
    exists w1,
      release a w = (Ok tt, w1)
      /\ in_flight w1 = in_flight w - 1
      /\ trace w1 = trace w ++ [Queue_buffer (raw_buffer b)]
      /\ forall w2, heap w2 !! a = heap w1 !! a ->
           exists e w3,
             release a w2 = (Raise e, w3)
             /\ trace w3 = trace w2
             /\ e = (if 0 <? in_flight w2 then AttributeError else AssertionError).
Proof.
  intros w a obj b Hl Hb Hp.
  rewrite (release_live a obj b w Hl Hb Hp).
  eexists. split; [done|]. split; [done|]. split; [done|].
  intros w2 Hw2. simpl in Hw2.
  rewrite list_lookup_insert_eq in Hw2 by (by eapply lookup_lt_Some).
  destruct (release_twice_raises a _ w2 Hw2 eq_refl) as (e & w3 & Hr & Ht & _ & He & Hc).
  by exists e, w3.
Qed.

Lemma release_is_single_use_witness :
  exists w1,
    release 0 (ImageBuffer_init 7 sample_buffer initial_world).2 = (Ok tt, w1)
    /\ in_flight w1 = 1 - 1
    /\ trace w1 = [] ++ [Queue_buffer (raw_buffer sample_buffer)]
    /\ forall w2, heap w2 !! 0%nat = heap w1 !! 0%nat ->
         exists e w3,
           release 0 w2 = (Raise e, w3)
           /\ trace w3 = trace w2
           /\ e = (if 0 <? in_flight w2 then AttributeError else AssertionError).
Proof.
  apply (release_is_single_use
           (ImageBuffer_init 7 sample_buffer initial_world).2 0
           {| _i := 7; _buffer := Some sample_buffer |} sample_buffer);
    [reflexivity | reflexivity | vm_compute; reflexivity].
Defined.

(** C6, as stated, fails: a handle created in one run and released for
    the first time after a new [ImageReaderThread] has been constructed
    meets a counter at zero; the release raises, lowers nothing and
    queues nothing. *)
Lemma first_release_can_fail :
  ~ (forall (w : World) (a : nat) (obj : ImageBuffer) (b : Buffer),
        heap w !! a = Some obj -> _buffer obj = Some b ->
        exists w1,
          release a w = (Ok tt, w1)
          /\ in_flight w1 = in_flight w - 1
          /\ trace w1 = trace w ++ [Queue_buffer (raw_buffer b)]).
Proof.
  intros Hall.
  destruct (Hall
              (ImageReaderThread_init 0
                 (ImageBuffer_init 7 sample_buffer initial_world).2).2
              0%nat {| _i := 7; _buffer := Some sample_buffer |} sample_buffer
              eq_refl eq_refl) as (w1 & Hr & _).
  vm_compute in Hr. discriminate Hr.
Qed.

(** C10. Constructing an [ImageReaderThread] sets the pool counter to zero
    whatever it was and touches nothing else; a handle that was still
    counted, whose release would have succeeded before, now raises the
    assertion error on release and is left as it was, its buffer not
    queued. *)
Theorem new_thread_forgets_handles_in_flight :
  forall (w : World) (ia : nat) (a : nat) (obj : ImageBuffer) (b : Buffer),
    heap w !! a = Some obj -> _buffer obj = Some b -> 0 < in_flight w ->
    let w1 := (ImageReaderThread_init ia w).2 in
    (exists w', release a w = (Ok tt, w'))
    /\ in_flight w1 = 0
    /\ heap w1 = heap w
    /\ trace w1 = trace w
    /\ release a w1 = (Raise AssertionError, w1).
Proof.
  intros w ia a obj b Hl Hb Hp w1.
  split; [rewrite (release_live a obj b w Hl Hb Hp); by eexists|].
  split; [done|]. split; [done|]. split; [done|].
  apply (release_at_zero a obj); [done | by simpl].
Qed.

Lemma new_thread_forgets_handles_in_flight_witness :
  let w := (ImageBuffer_init 7 sample_buffer initial_world).2 in
  let w1 := (ImageReaderThread_init 0 w).2 in
  (exists w', release 0 w = (Ok tt, w'))
  /\ in_flight w1 = 0
  /\ heap w1 = heap w
  /\ trace w1 = trace w
  /\ release 0 w1 = (Raise AssertionError, w1).
Proof.
  apply (new_thread_forgets_handles_in_flight
           (ImageBuffer_init 7 sample_buffer initial_world).2 0 0
           {| _i := 7; _buffer := Some sample_buffer |} sample_buffer);
    [reflexivity | reflexivity | vm_compute; reflexivity].
Defined.

(** ** The pixel normalisation *)

Lemma reshape_inv (a : list Z) (sh : list nat) (c : ndarray) :
  reshape a sh = Ok c ->
  c = {| shape := sh; elems := a; c_contiguous := true |}
  /\ length a = foldr Nat.mul 1%nat sh.
Proof.
  unfold reshape. destruct (Nat.eqb_spec (length a) (foldr Nat.mul 1%nat sh)); [|done].
  by intros [= <-].
Qed.

Lemma reshape_fits (a : list Z) (sh : list nat) :
  length a = foldr Nat.mul 1%nat sh ->
  reshape a sh = Ok {| shape := sh; elems := a; c_contiguous := true |}.
Proof. intros Hl. unfold reshape. by rewrite Hl, Nat.eqb_refl. Qed.

Lemma reverse_groups_bgr (pixels : list (Z * Z * Z)) :
  reverse_groups (length pixels) 3 (bgr_samples pixels) = rgb_samples pixels.
Proof.
  unfold bgr_samples, rgb_samples.
  induction pixels as [|[[r g] b] pixels IH]; [done|].
  simpl. by rewrite drop_0, IH.
Qed.

Lemma length_bgr_samples (pixels : list (Z * Z * Z)) :
  length (bgr_samples pixels) = (3 * length pixels)%nat.
Proof.
  unfold bgr_samples.
  induction pixels as [|[[r g] b] pixels IH]; [done|].
  simpl. rewrite IH. lia.
Qed.

Lemma map_rgb_samples (f : Z -> Z) (pixels : list (Z * Z * Z)) :
  map f (rgb_samples pixels) =
  rgb_samples (map (fun '(r, g, b) => (f r, f g, f b)) pixels).
Proof.
  unfold rgb_samples.
  induction pixels as [|[[r g] b] pixels IH]; [done|].
  simpl. by rewrite IH.
Qed.

Lemma to_8bit_in_range (bpp v : Z) :
  8 < bpp -> 0 <= v < 2 ^ bpp ->
  to_8bit (bpp - 8) v = v / 2 ^ (bpp - 8) /\ 0 <= to_8bit (bpp - 8) v < 256.
Proof.
  intros Hb [Hv0 Hv]. unfold to_8bit.
  assert (0 < 2 ^ (bpp - 8)) as Hpos by (apply Z.pow_pos_nonneg; lia).
  rewrite Z.quot_div_nonneg by lia.
  assert (v / 2 ^ (bpp - 8) < 256) as Hlt.
  { apply Z.div_lt_upper_bound; [done|].
    replace (2 ^ (bpp - 8) * 256) with (2 ^ bpp); [done|].
    replace bpp with ((bpp - 8) + 8) at 1 by lia.
    rewrite Z.pow_add_r by lia. reflexivity. }
  assert (0 <= v / 2 ^ (bpp - 8)) as Hge by (apply Z.div_pos; lia).
  rewrite Z.mod_small by lia. lia.
Qed.

Section ImageFacts.
Context `{Pfnc}.

Lemma image_of_component (self : ImageBuffer) (buffer : Buffer)
    (component : Component) (rest : list Component) :
  _buffer self = Some buffer ->
  components (raw_buffer buffer) = component :: rest ->
  image self =
    match content_8bit component with
    | Raise e => Raise e
    | Ok None => Ok None
    | Ok (Some content) =>
        match shape content with
        | [height2; width2; _] =>
            if c_contiguous content
            then Ok (Some {| bits := elems content; qwidth := width2;
                             qheight := height2; bytesPerLine := 3 * width2;
                             qformat := Format_RGB888 |})
            else Raise TypeError
        | _ => Raise ValueError
        end
    end.
Proof.
  intros Hb Hc. unfold image. rewrite Hb, Hc.
  by destruct (content_8bit component) as [[c|]|e].
Qed.

Lemma content_8bit_inv (component : Component) (content : ndarray) :
  content_8bit component = Ok (Some content) ->
  exists bpp c0,
    is_custom (data_format_value component) = false
    /\ get_bits_per_pixel (data_format component) = Some bpp
    /\ reshaped_content component = Ok (Some c0)
    /\ content = (if 0 <? bpp - 8 then downscale (bpp - 8) c0 else c0).
Proof.
  unfold content_8bit.
  destruct (is_custom _); [done|].
  destruct (get_bits_per_pixel _) as [bpp|]; [|done].
  destruct (reshaped_content component) as [[c0|]|e]; simpl; [|done|done].
  intros Hc. exists bpp, c0. repeat split; try done.
  by destruct (0 <? bpp - 8); injection Hc as <-.
Qed.

Lemma single_sample_content (component : Component) (c0 : ndarray) :
  data_format component ∈ mono_location_formats
  \/ data_format component ∈ bayer_location_formats ->
  reshaped_content component = Ok (Some c0) ->
  shape c0 = [height component; width component].
Proof.
  intros Hf. unfold reshaped_content.
  assert (bool_decide (data_format component ∈ mono_location_formats)
          || bool_decide (data_format component ∈ bayer_location_formats) = true) as ->.
  { apply orb_true_iff. destruct Hf; [left|right]; by apply bool_decide_eq_true. }
  destruct (reshape _ _) as [c|e] eqn:E; simpl; [|done].
  intros [= <-]. by apply reshape_inv in E as [-> _].
Qed.

(** A mono or Bayer payload never yields an image: where the samples pass
    the reshape, unpacking the two-dimensional shape into three names
    raises. *)
Lemma single_sample_formats_yield_no_image (self : ImageBuffer) (q : QImage)
    (buffer : Buffer) (component : Component) (rest : list Component) :
  _buffer self = Some buffer ->
  components (raw_buffer buffer) = component :: rest ->
  data_format component ∈ mono_location_formats
  \/ data_format component ∈ bayer_location_formats ->
  image self <> Ok (Some q).
Proof.
  intros Hb Hc Hf. rewrite (image_of_component self buffer component rest Hb Hc).
  destruct (content_8bit component) as [[content|]|e] eqn:E; [|done|done].
  apply content_8bit_inv in E as (bpp & c0 & _ & _ & Hr & ->).
  apply (single_sample_content _ _ Hf) in Hr.
  by destruct (0 <? bpp - 8); simpl; rewrite Hr.
Qed.

Lemma map_scaled (bpp : Z) (c0 : ndarray) :
  elems (if 0 <? bpp - 8 then downscale (bpp - 8) c0 else c0)
  = map (scaled bpp) (elems c0)
  /\ shape (if 0 <? bpp - 8 then downscale (bpp - 8) c0 else c0) = shape c0.
Proof.
  unfold scaled. destruct (0 <? bpp - 8); simpl; [done|].
  by rewrite map_id.
Qed.

Lemma colour_content (component : Component) :
  data_format component ∉ mono_location_formats ->
  data_format component ∉ bayer_location_formats ->
  data_format component ∈ rgb_formats
  \/ data_format component ∈ rgba_formats
  \/ data_format component ∈ bgr_formats
  \/ data_format component ∈ bgra_formats ->
  reshaped_content component =
    content ← reshape (data component)
                [height component; width component;
                 num_components_per_pixel component];
    if bool_decide (data_format component ∈ bgr_formats)
    then content ← reverse_last_axis content; Ok (Some content)
    else Ok (Some content).
Proof.
  intros Hm Hb Hf. unfold reshaped_content.
  rewrite (bool_decide_eq_false_2 _ Hm), (bool_decide_eq_false_2 _ Hb). simpl.
  assert (bool_decide (data_format component ∈ rgb_formats)
          || bool_decide (data_format component ∈ rgba_formats)
          || bool_decide (data_format component ∈ bgr_formats)
          || bool_decide (data_format component ∈ bgra_formats) = true) as ->; [|done].
  rewrite !orb_true_iff, !bool_decide_eq_true. tauto.
Qed.

End ImageFacts.

(** C3, at the payload the specification names: for an 8-bit mono payload
    of width 4 and height 2 the normalisation raises [ValueError] where it
    unpacks the two-dimensional shape into three names; no image, broadcast
    or not, is produced. *)
Theorem mono8_payload_raises :
  image (Harvesters.handle 0
           (Harvesters.component "Mono8" 4 2 1 [1; 2; 3; 4; 5; 6; 7; 8]))
  = Raise ValueError.
Proof. reflexivity. Qed.

(** A payload whose format is in the BGRA, RGB or RGBA table and not in
    the BGR table keeps the order of its samples and all its components. *)
Lemma unswapped_payload_kept_in_order :
  forall (tables : Pfnc) (self : ImageBuffer) (buffer : Buffer)
         (component : Component) (rest : list Component) (bpp : Z),
    _buffer self = Some buffer ->
    components (raw_buffer buffer) = component :: rest ->
    is_custom (data_format_value component) = false ->
    get_bits_per_pixel (data_format component) = Some bpp ->
    data_format component ∉ mono_location_formats ->
    data_format component ∉ bayer_location_formats ->
    data_format component ∉ bgr_formats ->
    data_format component ∈ bgra_formats
    \/ data_format component ∈ rgb_formats
    \/ data_format component ∈ rgba_formats ->
    length (data component) =
      (height component * width component
       * num_components_per_pixel component)%nat ->
    image self =
      Ok (Some {| bits := map (scaled bpp) (data component);
                  qwidth := width component;
                  qheight := height component;
                  bytesPerLine := 3 * width component;
                  qformat := Format_RGB888 |}).
Proof.
  intros tables self buffer component rest bpp Hb Hcs Hcustom Hbpp Hmono Hbayer
    Hbgr Hf Hlen.
  rewrite (image_of_component self buffer component rest Hb Hcs).
  unfold content_8bit. rewrite Hcustom, Hbpp.
  rewrite colour_content by tauto.
  rewrite reshape_fits by (rewrite Hlen; simpl; lia).
  rewrite (bool_decide_eq_false_2 _ Hbgr). simpl.
  destruct (map_scaled bpp
              {| shape := [height component; width component;
                           num_components_per_pixel component];
                 elems := data component;
                 c_contiguous := true |}) as [He Hs].
  destruct (0 <? bpp - 8) eqn:E; simpl in *; by rewrite <- He.
Qed.

(** A payload of BGR pixels is reordered in a view, which lines 139-142
    copy only where the bit depth is above 8: then the image holds the
    scaled samples of each pixel in the order R, G, B. *)
Lemma copied_bgr_view_is_reordered :
  forall (tables : Pfnc) (self : ImageBuffer) (buffer : Buffer)
         (component : Component) (rest : list Component) (bpp : Z)
         (pixels : list (Z * Z * Z)),
    _buffer self = Some buffer ->
    components (raw_buffer buffer) = component :: rest ->
    is_custom (data_format_value component) = false ->
    get_bits_per_pixel (data_format component) = Some bpp ->
    8 < bpp ->
    data_format component ∉ mono_location_formats ->
    data_format component ∉ bayer_location_formats ->
    data_format component ∈ bgr_formats ->
    num_components_per_pixel component = 3%nat ->
    data component = bgr_samples pixels ->
    length pixels = (height component * width component)%nat ->
    image self =
      Ok (Some {| bits := map (scaled bpp) (rgb_samples pixels);
                  qwidth := width component;
                  qheight := height component;
                  bytesPerLine := 3 * width component;
                  qformat := Format_RGB888 |}).
Proof.
  intros tables self buffer component rest bpp pixels
    Hb Hcs Hcustom Hbpp Hdeep Hmono Hbayer Hbgr Hc Hdata Hlen.
  rewrite (image_of_component self buffer component rest Hb Hcs).
  unfold content_8bit. rewrite Hcustom, Hbpp.
  rewrite colour_content by tauto.
  rewrite reshape_fits
    by (rewrite Hdata, length_bgr_samples, Hc, Hlen; simpl; lia).
  rewrite (bool_decide_eq_true_2 _ Hbgr). simpl.
  rewrite Hc, <- Hlen, Hdata, reverse_groups_bgr.
  unfold scaled.
  by destruct (Z.ltb_spec 0 (bpp - 8)); [|lia].
Qed.

(** Where the bit depth is 8 or less nothing copies the reversed view of a
    BGR payload, and [QImage] refuses it: no image is built. *)
Lemma uncopied_bgr_view_is_refused :
  forall (tables : Pfnc) (self : ImageBuffer) (buffer : Buffer)
         (component : Component) (rest : list Component) (bpp : Z),
    _buffer self = Some buffer ->
    components (raw_buffer buffer) = component :: rest ->
    is_custom (data_format_value component) = false ->
    get_bits_per_pixel (data_format component) = Some bpp ->
    bpp <= 8 ->
    data_format component ∉ mono_location_formats ->
    data_format component ∉ bayer_location_formats ->
    data_format component ∈ bgr_formats ->
    (1 < num_components_per_pixel component)%nat ->
    (0 < height component * width component)%nat ->
    length (data component) =
      (height component * width component
       * num_components_per_pixel component)%nat ->
    image self = Raise TypeError.
Proof.
  intros tables self buffer component rest bpp
    Hb Hcs Hcustom Hbpp Hshallow Hmono Hbayer Hbgr Hc Hhw Hlen.
  rewrite (image_of_component self buffer component rest Hb Hcs).
  unfold content_8bit. rewrite Hcustom, Hbpp.
  rewrite colour_content by tauto.
  rewrite reshape_fits by (rewrite Hlen; simpl; lia).
  rewrite (bool_decide_eq_true_2 _ Hbgr). simpl.
  destruct (Z.ltb_spec 0 (bpp - 8)); [lia|]. simpl.
  destruct (Nat.eqb_spec (height component * width component
                          * num_components_per_pixel component) 0); [nia|].
  by destruct (Nat.eqb_spec (num_components_per_pixel component) 1); [lia|].
Qed.

(** C4, at the payload the specification names. For the 8-bit BGR pixel
    with bytes 10, 20, 30 the samples are reversed to 30, 20, 10 in a view
    of the payload that is not C-contiguous and that nothing copies; the
    normalisation then raises [TypeError] where it builds the [QImage], so
    no image with the bytes 30, 20, 10 is produced. The BGRA pixel with
    bytes 10, 20, 30, 40 comes out as it went in, neither reordered nor
    relieved of its alpha, where the specification asks for 30, 20, 10. *)
Theorem bgr8_payload_raises :
  (exists content,
      content_8bit (Harvesters.component "BGR8" 1 1 3 [10; 20; 30])
      = Ok (Some content)
      /\ elems content = [30; 20; 10]
      /\ c_contiguous content = false)
  /\ image (Harvesters.handle 0
              (Harvesters.component "BGR8" 1 1 3 [10; 20; 30]))
     = Raise TypeError
  /\ spec_bgr_to_rgb 1 3 [10; 20; 30] = [30; 20; 10]
  /\ image (Harvesters.handle 0
              (Harvesters.component "BGRa8" 1 1 4 [10; 20; 30; 40]))
     = Ok (Some {| bits := [10; 20; 30; 40];
                   qwidth := 1; qheight := 1; bytesPerLine := 3;
                   qformat := Format_RGB888 |})
  /\ spec_bgr_to_rgb 1 4 [10; 20; 30; 40] = [30; 20; 10].
Proof.
  split; [eexists; split; [reflexivity | by split]|].
  by repeat split.
Qed.

(** C9. For every payload the normalisation accepts, the exponent is the
    bit depth minus 8 and the normalisation produces the samples scaled by
    it: a mono or Bayer payload of height times width samples gives a
    content of that shape, a colour payload of height times width times
    components samples a content of that shape (for a BGR format with each
    pixel reversed), and for an RGB, RGBA or BGRA format the image is built
    from exactly these scaled samples. Scaling a sample at a depth above 8
    divides it by two to the exponent, drops the fraction and keeps the low
    8 bits, which for a sample within its bit depth is the plain quotient,
    below 256; at a depth of 8 or less the sample is passed on as it is.
    The image of a 16-bit RGB payload with the samples 1024, 2048, 65535
    holds 4, 8, 255, and that of an 8-bit RGB payload its own bytes. *)
Theorem samples_are_scaled_to_8_bits :
  (forall (tables : Pfnc) (component : Component) (bpp : Z),
      is_custom (data_format_value component) = false ->
      get_bits_per_pixel (data_format component) = Some bpp ->
      (data_format component ∈ mono_location_formats
       \/ data_format component ∈ bayer_location_formats ->
       length (data component) = (height component * width component)%nat ->
       exists content,
         content_8bit component = Ok (Some content)
         /\ shape content = [height component; width component]
         /\ elems content = map (scaled bpp) (data component))
      /\ (data_format component ∉ mono_location_formats ->
          data_format component ∉ bayer_location_formats ->
          data_format component ∈ rgb_formats
          \/ data_format component ∈ rgba_formats
          \/ data_format component ∈ bgr_formats
          \/ data_format component ∈ bgra_formats ->
          length (data component) =
            (height component * width component
             * num_components_per_pixel component)%nat ->
          exists content,
            content_8bit component = Ok (Some content)
            /\ shape content =
                 [height component; width component;
                  num_components_per_pixel component]
            /\ elems content =
                 map (scaled bpp)
                   (if bool_decide (data_format component ∈ bgr_formats)
                    then reverse_groups (height component * width component)
                           (num_components_per_pixel component)
                           (data component)
                    else data component))
      /\ (data_format component ∉ mono_location_formats ->
          data_format component ∉ bayer_location_formats ->
          data_format component ∉ bgr_formats ->
          data_format component ∈ rgb_formats
          \/ data_format component ∈ rgba_formats
          \/ data_format component ∈ bgra_formats ->
          length (data component) =
            (height component * width component
             * num_components_per_pixel component)%nat ->
          forall (self : ImageBuffer) (buffer : Buffer)
                 (rest : list Component),
            _buffer self = Some buffer ->
            components (raw_buffer buffer) = component :: rest ->
            image self =
              Ok (Some {| bits := map (scaled bpp) (data component);
                          qwidth := width component;
                          qheight := height component;
                          bytesPerLine := 3 * width component;
                          qformat := Format_RGB888 |}))
      /\ (forall v : Z,
            (0 < bpp - 8 -> scaled bpp v = (v ÷ 2 ^ (bpp - 8)) `mod` 256)
            /\ (0 < bpp - 8 -> 0 <= v < 2 ^ bpp ->
                scaled bpp v = v / 2 ^ (bpp - 8) /\ 0 <= scaled bpp v < 256)
            /\ (bpp - 8 <= 0 -> scaled bpp v = v)))
  /\ image (Harvesters.handle 0
              (Harvesters.component "RGB16" 1 1 3 [1024; 2048; 65535]))
     = Ok (Some {| bits := [4; 8; 255];
                   qwidth := 1; qheight := 1; bytesPerLine := 3;
                   qformat := Format_RGB888 |})
  /\ image (Harvesters.handle 0
              (Harvesters.component "RGB8" 1 1 3 [10; 20; 30]))
     = Ok (Some {| bits := [10; 20; 30];
                   qwidth := 1; qheight := 1; bytesPerLine := 3;
                   qformat := Format_RGB888 |}).
Proof.
  split; [|by split].
  intros tables component bpp Hcustom Hbpp.
  split; [|split; [|split]].
  - intros Hf Hlen.
    pose (c0 := {| shape := [height component; width component];
                   elems := data component; c_contiguous := true |}).
    exists (if 0 <? bpp - 8 then downscale (bpp - 8) c0 else c0).
    destruct (map_scaled bpp c0) as [He Hs].
    split; [|by split].
    unfold content_8bit, reshaped_content. rewrite Hcustom, Hbpp.
    assert (bool_decide (data_format component ∈ mono_location_formats)
            || bool_decide (data_format component ∈ bayer_location_formats)
            = true) as ->.
    { apply orb_true_iff. destruct Hf; [left|right]; by apply bool_decide_eq_true. }
    rewrite reshape_fits by (rewrite Hlen; simpl; lia). simpl.
    by destruct (0 <? bpp - 8).
  - intros Hmono Hbayer Hf Hlen.
    pose (c0 := {| shape := [height component; width component;
                             num_components_per_pixel component];
                   elems := data component; c_contiguous := true |}).
    assert (reshape (data component) (shape c0) = Ok c0) as Hr
      by (apply reshape_fits; rewrite Hlen; simpl; lia).
    unfold content_8bit. rewrite Hcustom, Hbpp.
    rewrite colour_content by tauto. simpl in Hr. rewrite Hr.
    destruct (bool_decide (data_format component ∈ bgr_formats)); simpl.
    + unfold scaled.
      destruct (0 <? bpp - 8); (eexists; split; [reflexivity|]); simpl;
        (split; [done|]); [done | by rewrite map_id].
    + destruct (map_scaled bpp c0) as [He Hs].
      exists (if 0 <? bpp - 8 then downscale (bpp - 8) c0 else c0).
      split; [by destruct (0 <? bpp - 8) | by split].
  - intros Hmono Hbayer Hbgr Hf Hlen self buffer rest Hb Hcs.
    apply (unswapped_payload_kept_in_order tables self buffer component rest bpp);
      tauto.
  - intros v. unfold scaled. split; [|split]; intros Hexp.
    + by destruct (Z.ltb_spec 0 (bpp - 8)); [|lia].
    + intros Hv. destruct (Z.ltb_spec 0 (bpp - 8)); [|lia].
      apply to_8bit_in_range; lia.
    + by destruct (Z.ltb_spec 0 (bpp - 8)); [lia|].
Qed.

Lemma samples_are_scaled_to_8_bits_witness :
  (exists content,
      content_8bit (Harvesters.component "RGB16" 1 1 3 [1024; 2048; 65535])
      = Ok (Some content)
      /\ shape content = [1; 1; 3]%nat
      /\ elems content = [4; 8; 255])
  /\ (exists content,
        content_8bit (Harvesters.component "Mono16" 2 1 1 [1024; 65535])
        = Ok (Some content)
        /\ shape content = [1; 2]%nat
        /\ elems content = [4; 255])
  /\ image (Harvesters.handle 0
              (Harvesters.component "RGB16" 1 1 3 [1024; 2048; 65535]))
     = Ok (Some {| bits := [4; 8; 255];
                   qwidth := 1; qheight := 1; bytesPerLine := 3;
                   qformat := Format_RGB888 |})
  /\ (scaled 16 1024 = 1024 / 2 ^ (16 - 8) /\ 0 <= scaled 16 1024 < 256).
Proof.
  split; [|split; [|split]].
  - apply (proj1 (proj2
             (proj1 samples_are_scaled_to_8_bits Harvesters.pfnc
                (Harvesters.component "RGB16" 1 1 3 [1024; 2048; 65535]) 16
                eq_refl eq_refl)));
      [by_evaluation | by_evaluation | left; by_evaluation | reflexivity].
  - apply (proj1
             (proj1 samples_are_scaled_to_8_bits Harvesters.pfnc
                (Harvesters.component "Mono16" 2 1 1 [1024; 65535]) 16
                eq_refl eq_refl));
      [left; by_evaluation | reflexivity].
  - apply (proj1 (proj2 (proj2
             (proj1 samples_are_scaled_to_8_bits Harvesters.pfnc
                (Harvesters.component "RGB16" 1 1 3 [1024; 2048; 65535]) 16
                eq_refl eq_refl)))
             ltac:(by_evaluation) ltac:(by_evaluation) ltac:(by_evaluation)
             ltac:(left; by_evaluation) eq_refl
             (Harvesters.handle 0
                (Harvesters.component "RGB16" 1 1 3 [1024; 2048; 65535]))
             {| raw_buffer :=
                  Harvesters.image_buffer 0
                    (Harvesters.component "RGB16" 1 1 3 [1024; 2048; 65535]) |}
             [] eq_refl eq_refl).
  - apply (proj1 (proj2 (proj2 (proj2 (proj2
             (proj1 samples_are_scaled_to_8_bits Harvesters.pfnc
                (Harvesters.component "RGB16" 1 1 3 [1024; 2048; 65535]) 16
                eq_refl eq_refl))) 1024)));
      [lia | split; [lia | reflexivity]].
Defined.


(** ** The acquisition loop *)

Lemma follows_refl (w : World) : follows w w [].
Proof. split; [done | done | by rewrite app_nil_r | done]. Qed.

Lemma follows_trans (w1 w2 w3 : World) (tr1 tr2 : list Event) :
  follows w1 w2 tr1 -> follows w2 w3 tr2 -> follows w1 w3 (tr1 ++ tr2).
Proof.
  intros [Hi1 Hh1 Ht1 Hp1] [Hi2 Hh2 Ht2 Hp2]. split.
  - intros a j Hj. by apply Hi2, Hi1.
  - lia.
  - by rewrite Ht2, Ht1, app_assoc.
  - intros Hp. by apply Hp2, Hp1.
Qed.

Lemma release_follows (a : nat) (w : World) :
  exists tr,
    follows w (release a w).2 tr
    /\ Forall loop_event tr
    /\ frame_events tr = [].
Proof.
  destruct (heap w !! a) as [obj|] eqn:Hl.
  2: { rewrite release_unknown by done. exists []. split; [apply follows_refl | done]. }
  destruct (Z.ltb_spec 0 (in_flight w)) as [Hp|Hp].
  2: { rewrite (release_at_zero a obj) by done.
       exists []. split; [apply follows_refl | done]. }
  destruct (_buffer obj) as [b|] eqn:Hb.
  - rewrite (release_live a obj b) by done.
    exists [Queue_buffer (raw_buffer b)]. split; [|split; [|done]].
    + split; simpl; [| by rewrite length_insert | done | unfold in_flight in *; simpl; lia].
      intros x j. unfold sequence_index. simpl.
      destruct (decide (a = x)) as [<-|Hne].
      * rewrite list_lookup_insert_eq by (by eapply lookup_lt_Some).
        by rewrite Hl.
      * by rewrite list_lookup_insert_ne.
    + by repeat constructor.
  - rewrite (release_released a obj) by done.
    exists []. split; [|done].
    split; simpl; [done | done | by rewrite app_nil_r | unfold in_flight in *; simpl; lia].
Qed.

Lemma consumer_follows (handles : list nat) : forall w : World,
  exists tr,
    follows w (consumer handles w) tr
    /\ Forall loop_event tr
    /\ frame_events tr = [].
Proof.
  induction handles as [|a handles IH]; intros w; simpl.
  - exists []. split; [apply follows_refl | done].
  - destruct (release_follows a w) as (tr1 & Hf1 & He1 & Hn1).
    destruct (IH (release a w).2) as (tr2 & Hf2 & He2 & Hn2).
    exists (tr1 ++ tr2). split; [by eapply follows_trans|].
    split; [by apply Forall_app|].
    unfold frame_events in *. by rewrite omap_app, Hn1, Hn2.
Qed.

Lemma follows_queue_buffer (gb : GenicamBuffer) (w : World) :
  follows w (queue_buffer gb w) [Queue_buffer gb].
Proof. by split. Qed.

Lemma follows_new_frame (i : Z) (buffer : Buffer) (w : World) :
  let a := length (heap w) in
  let w' := log (Emit_image_acquired a)
              (ImageBuffer_init i buffer (_update_statistics buffer w)).2 in
  follows w w' [Emit_image_acquired a]
  /\ sequence_index w' a = Some i.
Proof.
  simpl. split; [split; simpl|].
  - intros a j. unfold sequence_index. simpl.
    destruct (heap w !! a) as [obj|] eqn:Hl; [|done].
    by rewrite (lookup_app_l_Some _ _ _ _ Hl).
  - rewrite length_app. lia.
  - done.
  - unfold in_flight. simpl. lia.
  - unfold sequence_index. simpl.
    by rewrite list_lookup_middle.
Qed.

(** What one call of [handle_one_buffer] leaves behind: no frame event,
    or exactly one, for the handle just created, which carries [i]. *)
Lemma handle_one_buffer_follows (i : Z) (t : Tick) (self : ImageReaderThread)
    (w : World) (r : Res unit) (self' : ImageReaderThread) (w' : World) :
  handle_one_buffer i t self w = (r, self', w') ->
  exists tr,
    follows w w' tr
    /\ Forall loop_event tr
    /\ (frame_events tr = []
        \/ (r = Ok tt
            /\ frame_events tr = [length (heap w)]
            /\ sequence_index w' (length (heap w)) = Some i)).
Proof.
  unfold handle_one_buffer.
  destruct (wait t) as [e|gb].
  - destruct e; intros [= <- <- <-]; exists [];
      (split; [apply follows_refl | split; [done | by left]]).
  - destruct (is_complete gb); simpl.
    2: { intros [= <- <- <-]. exists [Queue_buffer gb].
         split; [apply follows_queue_buffer|]. split; [by repeat constructor | by left]. }
    destruct (bool_decide (payload_type gb ∈ _VISIBLE_PAYLOADS)); simpl.
    2: { intros [= <- <- <-]. exists [Queue_buffer gb].
         split; [apply follows_queue_buffer|]. split; [by repeat constructor | by left]. }
    destruct (_stop_acquisition _).
    { intros [= <- <- <-]. exists [Queue_buffer gb].
      split; [apply follows_queue_buffer|]. split; [by repeat constructor | by left]. }
    intros [= <- <- <-].
    destruct (follows_new_frame i {| raw_buffer := gb |} w) as [Hf Hi].
    exists [Emit_image_acquired (length (heap w))].
    split; [exact Hf|]. split; [by repeat constructor|].
    right. by split.
Qed.

Lemma iteration_follows (i : Z) (t : Tick) (self : ImageReaderThread)
    (w : World) (c : Control) (self' : ImageReaderThread) (w' : World) :
  iteration i t self w = (c, self', w') ->
  exists tr,
    follows w w' tr
    /\ Forall loop_event tr
    /\ (frame_events tr = []
        \/ (c = Continue
            /\ frame_events tr = [length (heap w)]
            /\ sequence_index w' (length (heap w)) = Some i)).
Proof.
  unfold iteration.
  destruct (ia_is_acquiring t); simpl.
  2: { intros [= <- <- <-]. exists []. split; [apply follows_refl|]. by split; [|left]. }
  destruct (_stop_acquisition self).
  - destruct (BufferPool.buffers_in_use (_BUFFER_BOOL w)) as [[|]|e];
      intros [= <- <- <-].
    + exists [Ia_stop_acquisition]. split; [by split|].
      split; [by repeat constructor | by left].
    + exists []. split; [apply follows_refl|]. by split; [|left].
    + exists []. split; [apply follows_refl|]. by split; [|left].
  - destruct (handle_one_buffer i t self w) as [[r self1] w1] eqn:Hh.
    apply handle_one_buffer_follows in Hh as (tr & Hf & He & Hfr).
    destruct r as [[]|e]; intros [= <- <- <-]; exists tr;
      (split; [done|]; split; [done|]).
    + destruct Hfr as [Hfr|(_ & Hfr & Hi)]; [by left | right; by split].
    + destruct Hfr as [Hfr|(Hr & _)]; [by left | done].
Qed.

Lemma environment_follows (t : Tick) (self : ImageReaderThread) (w : World) :
  exists tr,
    follows w (environment t self w).2 tr
    /\ Forall loop_event tr
    /\ frame_events tr = [].
Proof. apply consumer_follows. Qed.

Lemma run_loop_cons (i : Z) (t : Tick) (schedule : list Tick)
    (self : ImageReaderThread) (w : World) :
  run_loop i (t :: schedule) self w =
    match iteration i t (environment t self w).1 (environment t self w).2 with
    | (Continue, self, w) => run_loop (i + 1) schedule self w
    | (Break, self, w) => (Left_by_break, self, w)
    | (Raised e, self, w) => (Left_by_exception e, self, w)
    end.
Proof. reflexivity. Qed.

(** The part of a run spent in the loop: the worlds follow one another,
    only loop events are added, and the frames announced carry strictly
    increasing indices, each the number of the iteration that accepted
    its buffer. *)
Lemma run_loop_follows (schedule : list Tick) :
  forall (i : Z) (self : ImageReaderThread) (w : World)
         (x : LoopExit) (self' : ImageReaderThread) (w' : World),
    run_loop i schedule self w = (x, self', w') ->
    exists tr idx,
      follows w w' tr
      /\ Forall loop_event tr
      /\ map (sequence_index w') (frame_events tr) = map Some idx
      /\ StronglySorted Z.lt idx
      /\ Forall (fun j => i <= j < i + Z.of_nat (length schedule)) idx.
Proof.
  induction schedule as [|t schedule IH]; intros i self w x self' w'.
  - intros [= <- <- <-]. exists [], [].
    split; [apply follows_refl|]. by repeat split; constructor.
  - rewrite run_loop_cons.
    destruct (environment_follows t self w) as (tr0 & Hf0 & He0 & Hn0).
    destruct (environment t self w) as [self0 w0] eqn:Henv.
    simpl in Hf0. simpl fst. simpl snd.
    destruct (iteration i t self0 w0) as [[c self1] w1] eqn:Hit.
    destruct (iteration_follows _ _ _ _ _ _ _ Hit) as (tr1 & Hf1 & He1 & Hfr1).
    assert (forall tr, frame_events (tr0 ++ tr) = frame_events tr) as Hdrop.
    { intros tr. unfold frame_events in *. by rewrite omap_app, Hn0. }
    destruct c.
    + intros Hrun.
      destruct (IH _ _ _ _ _ _ Hrun) as (tr2 & idx2 & Hf2 & He2 & Hm2 & Hs2 & Hb2).
      assert (follows w w' (tr0 ++ tr1 ++ tr2)) as Hf
        by (eapply follows_trans; [done|]; by eapply follows_trans).
      assert (Forall loop_event (tr0 ++ tr1 ++ tr2)) as He
        by (by repeat apply Forall_app_2).
      assert (Forall (fun j => i <= j < i + Z.of_nat (length (t :: schedule))) idx2) as Hb.
      { eapply Forall_impl; [exact Hb2|]. simpl. intros j. lia. }
      assert (frame_events (tr1 ++ tr2) = frame_events tr1 ++ frame_events tr2) as Hsplit
        by (unfold frame_events; apply omap_app).
      destruct Hfr1 as [Hfr1|(_ & Hfr1 & Hi1)].
      * exists (tr0 ++ tr1 ++ tr2), idx2.
        split; [done|]. split; [done|].
        rewrite Hdrop, Hsplit, Hfr1. by split.
      * exists (tr0 ++ tr1 ++ tr2), (i :: idx2).
        split; [done|]. split; [done|].
        rewrite Hdrop, Hsplit, Hfr1. simpl.
        split; [|split].
        -- rewrite Hm2. f_equal. by apply (follows_index _ _ _ Hf2).
        -- constructor; [done|].
           eapply Forall_impl; [exact Hb2|]. simpl. intros j. lia.
        -- constructor; [simpl; lia | done].
    + intros [= <- <- <-].
      destruct Hfr1 as [Hfr1|(? & _)]; [|done].
      exists (tr0 ++ tr1), [].
      split; [by eapply follows_trans|]. split; [by apply Forall_app_2|].
      rewrite Hdrop, Hfr1. by repeat split; constructor.
    + intros [= <- <- <-].
      destruct Hfr1 as [Hfr1|(? & _)]; [|done].
      exists (tr0 ++ tr1), [].
      split; [by eapply follows_trans|]. split; [by apply Forall_app_2|].
      rewrite Hdrop, Hfr1. by repeat split; constructor.
Qed.

Lemma run_loop_app (s1 s2 : list Tick) :
  forall (i : Z) (self : ImageReaderThread) (w : World),
    run_loop i (s1 ++ s2) self w =
      match run_loop i s1 self w with
      | (Still_looping j, self', w') => run_loop j s2 self' w'
      | other => other
      end.
Proof.
  induction s1 as [|t s1 IH]; intros i self w; [done|].
  rewrite <- app_comm_cons, !run_loop_cons.
  destruct (iteration i t _ _) as [[[| |e] self1] w1]; [apply IH | done | done].
Qed.

(** C8. In every run of the loop, on whatever schedule, the frame events
    added to the trace carry, in the order of emission, strictly increasing
    sequence indices, each within the range of the iterations run; an
    iteration whose wait times out, or whose buffer is handed back
    (incomplete, not a visible payload, or stop requested meanwhile), emits
    nothing and still moves the counter on, so that the indices can skip
    values, as on the schedule of three frames, an incomplete buffer and a
    frame, which emits 0, 1, 2 and 4. *)
Theorem sequence_indices_strictly_increase :
  (forall (schedule : list Tick) (i : Z) (self : ImageReaderThread) (w : World)
          (x : LoopExit) (self' : ImageReaderThread) (w' : World),
      run_loop i schedule self w = (x, self', w') ->
      exists tr idx,
        trace w' = trace w ++ tr
        /\ map (sequence_index w') (frame_events tr) = map Some idx
        /\ StronglySorted Z.lt idx
        /\ Forall (fun j => i <= j < i + Z.of_nat (length schedule)) idx)
  /\ (forall (schedule : list Tick) (t : Tick) (i : Z)
             (self : ImageReaderThread) (w : World),
        let self0 := (environment t self w).1 in
        let w0 := (environment t self w).2 in
        ia_is_acquiring t = true ->
        _stop_acquisition self0 = false ->
        wait t = Raises TimeoutException
        \/ (exists genicam_buffer,
              wait t = NewBuffer genicam_buffer
              /\ (is_complete genicam_buffer = false
                  \/ payload_type genicam_buffer ∉ _VISIBLE_PAYLOADS
                  \/ stop_pressed_during_wait t = true)) ->
        exists self1 w1,
          run_loop i (t :: schedule) self w = run_loop (i + 1) schedule self1 w1
          /\ frame_events (trace w1) = frame_events (trace w0)
          /\ heap w1 = heap w0)
  /\ (let '(_, _, w') :=
        run_loop 0
          [tick_frame 0; tick_frame 1; tick_frame 2; tick_incomplete 3; tick_frame 4]
          fresh_thread.1 fresh_thread.2 in
      map (sequence_index w') (frame_events (trace w'))
      = [Some 0; Some 1; Some 2; Some 4]).
Proof.
  split; [|split].
  - intros schedule i self w x self' w' Hrun.
    destruct (run_loop_follows _ _ _ _ _ _ _ Hrun) as (tr & idx & Hf & _ & Hm & Hs & Hb).
    exists tr, idx. split; [apply Hf | done].
  - intros schedule t i self w self0 w0 Hacq Hstop Hwait.
    rewrite run_loop_cons. fold self0 w0.
    unfold iteration, handle_one_buffer. rewrite Hacq, Hstop. simpl.
    destruct Hwait as [->|(gb & -> & Hgb)]; [by eexists _, _|].
    destruct (is_complete gb) eqn:Hc; simpl.
    2: { eexists _, _. split; [done|]. split; [|done].
         unfold frame_events. simpl. by rewrite omap_app, app_nil_r. }
    destruct (bool_decide (payload_type gb ∈ _VISIBLE_PAYLOADS)) eqn:Hv; simpl.
    2: { eexists _, _. split; [done|]. split; [|done].
         unfold frame_events. simpl. by rewrite omap_app, app_nil_r. }
    apply bool_decide_eq_true in Hv.
    destruct Hgb as [Hgb|[Hgb|Hgb]]; [done | done |].
    rewrite Hgb. simpl.
    eexists _, _. split; [done|]. split; [|done].
    unfold frame_events. simpl. by rewrite omap_app, app_nil_r.
  - reflexivity.
Qed.

Lemma sequence_indices_strictly_increase_witness :
  (exists tr idx,
      trace (run_loop 0 [tick_frame 0; tick_timeout; tick_frame 1]
               fresh_thread.1 fresh_thread.2).2
      = trace fresh_thread.2 ++ tr
      /\ map (sequence_index
                (run_loop 0 [tick_frame 0; tick_timeout; tick_frame 1]
                   fresh_thread.1 fresh_thread.2).2)
           (frame_events tr)
         = map Some idx
      /\ StronglySorted Z.lt idx
      /\ Forall (fun j => 0 <= j < 0 + Z.of_nat 3) idx)
  /\ (exists self1 w1,
        run_loop 5 [tick_incomplete 9; tick_frame 0] fresh_thread.1 fresh_thread.2
        = run_loop (5 + 1) [tick_frame 0] self1 w1
        /\ frame_events (trace w1) = frame_events (trace fresh_thread.2)
        /\ heap w1 = heap fresh_thread.2).
Proof.
  split.
  - apply (proj1 sequence_indices_strictly_increase
             [tick_frame 0; tick_timeout; tick_frame 1] 0
             fresh_thread.1 fresh_thread.2
             (Still_looping 3)
             (run_loop 0 [tick_frame 0; tick_timeout; tick_frame 1]
                fresh_thread.1 fresh_thread.2).1.2).
    reflexivity.
  - apply (proj1 (proj2 sequence_indices_strictly_increase)
             [tick_frame 0] (tick_incomplete 9) 5 fresh_thread.1 fresh_thread.2);
      [reflexivity | reflexivity |].
    right. eexists. split; [reflexivity|]. by left.
Defined.

Lemma handle_one_buffer_ia (i : Z) (t : Tick) (self : ImageReaderThread)
    (w : World) (r : Res unit) (self' : ImageReaderThread) (w' : World) :
  handle_one_buffer i t self w = (r, self', w') -> _ia self' = _ia self.
Proof.
  unfold handle_one_buffer.
  assert (_ia (if stop_pressed_during_wait t then stop_acquisition self else self)
          = _ia self) as Hia by (by destruct (stop_pressed_during_wait t)).
  revert Hia.
  generalize (if stop_pressed_during_wait t then stop_acquisition self else self).
  intros self0 Hia.
  destruct (wait t) as [[]|gb]; try (by intros [= _ <- _]).
  destruct (is_complete gb); simpl; [|by intros [= _ <- _]].
  destruct (bool_decide _); simpl; [|by intros [= _ <- _]].
  destruct (_stop_acquisition self0); by intros [= _ <- _].
Qed.

Lemma iteration_ia (i : Z) (t : Tick) (self : ImageReaderThread)
    (w : World) (c : Control) (self' : ImageReaderThread) (w' : World) :
  iteration i t self w = (c, self', w') -> _ia self' = _ia self.
Proof.
  unfold iteration.
  destruct (ia_is_acquiring t); simpl; [|by intros [= _ <- _]].
  destruct (_stop_acquisition self).
  - by destruct (BufferPool.buffers_in_use _) as [[|]|e]; intros [= _ <- _].
  - destruct (handle_one_buffer i t self w) as [[r self1] w1] eqn:Hh.
    apply handle_one_buffer_ia in Hh.
    by destruct r; intros [= _ <- _].
Qed.

Lemma run_loop_ia (schedule : list Tick) :
  forall (i : Z) (self : ImageReaderThread) (w : World)
         (x : LoopExit) (self' : ImageReaderThread) (w' : World),
    run_loop i schedule self w = (x, self', w') -> _ia self' = _ia self.
Proof.
  induction schedule as [|t schedule IH]; intros i self w x self' w'.
  - by intros [= _ <- _].
  - rewrite run_loop_cons.
    assert (_ia (environment t self w).1 = _ia self) as <-
      by (unfold environment; simpl; by destruct (stop_pressed t)).
    generalize (environment t self w).1 (environment t self w).2.
    intros self0 w0.
    destruct (iteration i t self0 w0) as [[c self1] w1] eqn:E.
    apply iteration_ia in E. rewrite <- E.
    destruct c; [apply IH | by intros [= _ <- _] | by intros [= _ <- _]].
Qed.

Lemma loop_events_hold_no_end (tr : list Event) :
  Forall loop_event tr ->
  count_event Emit_done tr = 0%nat /\ count_event Ia_destroy tr = 0%nat.
Proof.
  unfold count_event.
  induction 1 as [|ev tr Hev _ [IH1 IH2]]; [done|].
  rewrite !filter_cons.
  by destruct ev; simpl in Hev; try done;
    (destruct (decide _); [done|]).
Qed.

Lemma count_event_app (ev : Event) (tr1 tr2 : list Event) :
  count_event ev (tr1 ++ tr2) = (count_event ev tr1 + count_event ev tr2)%nat.
Proof. unfold count_event. by rewrite filter_app, length_app. Qed.

(** A run that has got through [schedule] and meets one more tick. *)
Lemma run_one_more (schedule : list Tick) (t : Tick) (ia : nat)
    (self : ImageReaderThread) (w : World)
    (i : Z) (self1 : ImageReaderThread) (w1 : World) :
  _ia self = Some ia ->
  run_loop 0 schedule self (log Ia_start_acquisition w) = (Still_looping i, self1, w1) ->
  run (schedule ++ [t]) self w =
    match iteration i t (environment t self1 w1).1 (environment t self1 w1).2 with
    | (Continue, self2, w2) => (Running (i + 1), self2, w2)
    | (Break, self2, w2) => (Returned, (finalize self2 w2).1, (finalize self2 w2).2)
    | (Raised e, self2, w2) => (Propagated e, self2, w2)
    end.
Proof.
  intros Hia Hrun. unfold run. rewrite Hia, run_loop_app, Hrun, run_loop_cons.
  by destruct (iteration i t _ _) as [[[| |e] self2] w2].
Qed.

Lemma stop_observed (i : Z) (t : Tick) (self : ImageReaderThread) (w : World) :
  ia_is_acquiring t = true -> _stop_acquisition self = true ->
  0 <= in_flight w ->
  iteration i t self w =
    (Break, self, if 0 <? in_flight w then log Ia_stop_acquisition w else w).
Proof.
  intros Hacq Hstop Hp. unfold iteration. rewrite Hacq, Hstop. simpl.
  unfold BufferPool.buffers_in_use. unfold in_flight in *.
  destruct (Z.leb_spec 0 (BufferPool._buffers_in_use (_BUFFER_BOOL w))); [|lia].
  by destruct (0 <? BufferPool._buffers_in_use (_BUFFER_BOOL w)).
Qed.

(** C7. When an iteration starts with the camera acquiring and the stop
    flag set, it calls [stop_acquisition] on the camera exactly when the
    pool counter is positive, and in both cases leaves the loop; in a run
    started from a new thread object the counter is never negative at that
    point, and the run goes on to finalization and returns. *)
Theorem stop_request_stops_camera_iff_in_use :
  (forall (i : Z) (t : Tick) (self : ImageReaderThread) (w : World),
      ia_is_acquiring t = true -> _stop_acquisition self = true ->
      0 <= in_flight w ->
      iteration i t self w =
        (Break, self, if 0 <? in_flight w then log Ia_stop_acquisition w else w))
  /\ (forall (schedule : list Tick) (t : Tick) (ia : nat) (w0 : World)
             (i : Z) (self : ImageReaderThread) (w : World),
        run_loop 0 schedule (ImageReaderThread_init ia w0).1
          (log Ia_start_acquisition (ImageReaderThread_init ia w0).2)
        = (Still_looping i, self, w) ->
        ia_is_acquiring t = true ->
        _stop_acquisition (environment t self w).1 = true ->
        let self1 := (environment t self w).1 in
        let w1 := (environment t self w).2 in
        let w2 := if 0 <? in_flight w1 then log Ia_stop_acquisition w1 else w1 in
        0 <= in_flight w1
        /\ iteration i t self1 w1 = (Break, self1, w2)
        /\ run (schedule ++ [t]) (ImageReaderThread_init ia w0).1
             (ImageReaderThread_init ia w0).2
           = (Returned, (finalize self1 w2).1, (finalize self1 w2).2)).
Proof.
  split; [exact stop_observed|].
  intros schedule t ia w0 i self w Hrun Hacq Hstop self1 w1 w2.
  assert (0 <= in_flight w1) as Hp.
  { destruct (run_loop_follows _ _ _ _ _ _ _ Hrun) as (tr & idx & Hf & _).
    destruct (environment_follows t self w) as (tr' & Hf' & _).
    apply (follows_pool _ _ _ Hf'), (follows_pool _ _ _ Hf).
    unfold in_flight. simpl. lia. }
  split; [done|].
  pose proof (stop_observed i t self1 w1 Hacq Hstop Hp) as Hit.
  split; [done|].
  rewrite (run_one_more schedule t ia (ImageReaderThread_init ia w0).1
             (ImageReaderThread_init ia w0).2 i self w eq_refl Hrun).
  fold self1 w1. by rewrite Hit.
Qed.

Lemma stop_request_stops_camera_iff_in_use_witness :
  iteration 1 (tick_stop [])
    (environment (tick_stop [])
       (run_loop 0 [tick_frame 0] fresh_thread.1
          (log Ia_start_acquisition fresh_thread.2)).1.2
       (run_loop 0 [tick_frame 0] fresh_thread.1
          (log Ia_start_acquisition fresh_thread.2)).2).1
    (environment (tick_stop [])
       (run_loop 0 [tick_frame 0] fresh_thread.1
          (log Ia_start_acquisition fresh_thread.2)).1.2
       (run_loop 0 [tick_frame 0] fresh_thread.1
          (log Ia_start_acquisition fresh_thread.2)).2).2
  = (Break,
     {| _stop_acquisition := true; _ia := Some 0%nat |},
     log Ia_stop_acquisition
       (run_loop 0 [tick_frame 0] fresh_thread.1
          (log Ia_start_acquisition fresh_thread.2)).2)
  /\ iteration 1 (tick_stop [0%nat])
       {| _stop_acquisition := true; _ia := Some 0%nat |} initial_world
     = (Break, {| _stop_acquisition := true; _ia := Some 0%nat |}, initial_world).
Proof.
  split.
  - apply (proj2 stop_request_stops_camera_iff_in_use
             [tick_frame 0] (tick_stop []) 0%nat initial_world 1
             (run_loop 0 [tick_frame 0] fresh_thread.1
                (log Ia_start_acquisition fresh_thread.2)).1.2
             (run_loop 0 [tick_frame 0] fresh_thread.1
                (log Ia_start_acquisition fresh_thread.2)).2);
      reflexivity.
  - apply (proj1 stop_request_stops_camera_iff_in_use 1 (tick_stop [0%nat])
             {| _stop_acquisition := true; _ia := Some 0%nat |} initial_world);
      [reflexivity | reflexivity | vm_compute; discriminate].
Defined.

(** C1, as the code has it. Whatever the schedule, a run that leaves the
    loop through a [break] destroys the camera handle, drops its reference
    and emits [done], each exactly once and at the very end; a run that an
    exception leaves, or that is still in the loop, has neither destroyed
    the handle, nor dropped the reference, nor emitted [done]. An exception
    other than the timeout raised while waiting for a buffer is of the
    second kind: it leaves [run] at once. *)
Theorem run_ends_with_done_after_break :
  (forall (schedule : list Tick) (self : ImageReaderThread) (w : World)
          (x : RunExit) (self' : ImageReaderThread) (w' : World),
      run schedule self w = (x, self', w') ->
      exists added,
        trace w' = trace w ++ added
        /\ match x with
           | Returned =>
               _ia self' = None
               /\ count_event Emit_done added = 1%nat
               /\ count_event Ia_destroy added = 1%nat
               /\ exists tr,
                    added = Ia_start_acquisition :: tr ++ [Ia_destroy; Emit_done]
           | Propagated _ | Running _ =>
               _ia self' = _ia self
               /\ count_event Emit_done added = 0%nat
               /\ count_event Ia_destroy added = 0%nat
           end)
  /\ (forall (schedule : list Tick) (t : Tick) (ia : nat)
             (self : ImageReaderThread) (w : World)
             (i : Z) (self1 : ImageReaderThread) (w1 : World) (e : exn),
        _ia self = Some ia ->
        run_loop 0 schedule self (log Ia_start_acquisition w)
        = (Still_looping i, self1, w1) ->
        ia_is_acquiring t = true ->
        _stop_acquisition (environment t self1 w1).1 = false ->
        wait t = Raises e -> e <> TimeoutException ->
        exists self2,
          run (schedule ++ [t]) self w
          = (Propagated e, self2, (environment t self1 w1).2)
          /\ _ia self2 = Some ia).
Proof.
  split.
  - intros schedule self w x self' w'. unfold run.
    destruct (_ia self) as [ia|] eqn:Hia.
    2: { intros [= <- <- <-]. exists []. by rewrite app_nil_r. }
    destruct (run_loop 0 schedule self (log Ia_start_acquisition w))
      as [[lx self1] w1] eqn:Hrun.
    destruct (run_loop_follows _ _ _ _ _ _ _ Hrun) as (tr & idx & Hf & He & _).
    pose proof (follows_trace _ _ _ Hf) as Ht. simpl in Ht.
    pose proof (run_loop_ia _ _ _ _ _ _ _ Hrun) as Hia1.
    destruct (loop_events_hold_no_end tr He) as [Hd Hy].
    destruct lx; simpl; intros [= <- <- <-].
    + exists (Ia_start_acquisition :: tr ++ [Ia_destroy; Emit_done]).
      simpl. rewrite Ht, <- !app_assoc. split; [done|]. split; [done|].
      change (Ia_start_acquisition :: tr ++ [Ia_destroy; Emit_done])
        with ([Ia_start_acquisition] ++ tr ++ [Ia_destroy; Emit_done]).
      rewrite !count_event_app, Hd, Hy. by eauto.
    + exists (Ia_start_acquisition :: tr).
      rewrite Ht, <- app_assoc. split; [done|]. split; [congruence|].
      change (Ia_start_acquisition :: tr) with ([Ia_start_acquisition] ++ tr).
      by rewrite !count_event_app, Hd, Hy.
    + exists (Ia_start_acquisition :: tr).
      rewrite Ht, <- app_assoc. split; [done|]. split; [congruence|].
      change (Ia_start_acquisition :: tr) with ([Ia_start_acquisition] ++ tr).
      by rewrite !count_event_app, Hd, Hy.
  - intros schedule t ia self w i self1 w1 e Hia Hrun Hacq Hstop Hwait Hne.
    rewrite (run_one_more schedule t ia self w i self1 w1 Hia Hrun).
    pose proof (run_loop_ia _ _ _ _ _ _ _ Hrun) as Hia1.
    assert (_ia (environment t self1 w1).1 = Some ia) as Hia2.
    { rewrite <- Hia, <- Hia1. unfold environment. simpl.
      by destruct (stop_pressed t). }
    unfold iteration, handle_one_buffer. rewrite Hacq, Hstop, Hwait. simpl.
    destruct e; try done; eexists; (split; [done|]);
      by destruct (stop_pressed_during_wait t).
Qed.

Lemma run_ends_with_done_after_break_witness :
  (exists added,
      trace (run [tick_frame 0; tick_stop [0%nat]] fresh_thread.1 fresh_thread.2).2
      = trace fresh_thread.2 ++ added
      /\ _ia {| _stop_acquisition := true; _ia := None |} = None
      /\ count_event Emit_done added = 1%nat
      /\ count_event Ia_destroy added = 1%nat
      /\ exists tr,
           added = Ia_start_acquisition :: tr ++ [Ia_destroy; Emit_done])
  /\ (exists self2,
        run ([tick_frame 0] ++ [tick_failure]) fresh_thread.1 fresh_thread.2
        = (Propagated GenericException, self2,
           (environment tick_failure
              (run_loop 0 [tick_frame 0] fresh_thread.1
                 (log Ia_start_acquisition fresh_thread.2)).1.2
              (run_loop 0 [tick_frame 0] fresh_thread.1
                 (log Ia_start_acquisition fresh_thread.2)).2).2)
        /\ _ia self2 = Some 0%nat).
Proof.
  split.
  - apply (proj1 run_ends_with_done_after_break
             [tick_frame 0; tick_stop [0%nat]] fresh_thread.1 fresh_thread.2
             Returned {| _stop_acquisition := true; _ia := None |}
             (run [tick_frame 0; tick_stop [0%nat]] fresh_thread.1 fresh_thread.2).2).
    reflexivity.
  - apply (proj2 run_ends_with_done_after_break
             [tick_frame 0] tick_failure 0%nat fresh_thread.1 fresh_thread.2 1
             (run_loop 0 [tick_frame 0] fresh_thread.1
                (log Ia_start_acquisition fresh_thread.2)).1.2
             (run_loop 0 [tick_frame 0] fresh_thread.1
                (log Ia_start_acquisition fresh_thread.2)).2
             GenericException);
      [reflexivity | reflexivity | reflexivity | reflexivity | reflexivity
      | discriminate].
Defined.

(** C1, as stated, fails: when waiting for the first buffer raises an
    exception other than the timeout, the run ends with the exception, the
    camera reference still in place and no [done] in the trace. *)
Lemma failure_while_waiting_skips_done :
  let '(x, self', w') := run [tick_failure] fresh_thread.1 fresh_thread.2 in
  x = Propagated GenericException
  /\ _ia self' = Some 0%nat
  /\ count_event Emit_done (trace w') = 0%nat
  /\ count_event Ia_destroy (trace w') = 0%nat.
Proof. by vm_compute. Qed.

(** C2, where it fails: the stop button is pressed while the handle of the
    first frame has not been released. The loop asks the camera to stop
    and leaves; [destroy] is then called with the pool counter at 1 and
    the handle's buffer still in the consumer's hands. *)
Theorem destroy_with_frame_in_flight :
  let schedule := [tick_frame 0; tick_stop []] in
  let '(x, self1, w1) :=
    run_loop 0 schedule fresh_thread.1
      (log Ia_start_acquisition fresh_thread.2) in
  x = Left_by_break
  /\ in_flight w1 = 1
  /\ (exists b, heap w1 !! 0%nat = Some {| _i := 0; _buffer := Some b |})
  /\ trace w1 = [Ia_start_acquisition; Emit_image_acquired 0; Ia_stop_acquisition]
  /\ run schedule fresh_thread.1 fresh_thread.2
     = (Returned, (finalize self1 w1).1, (finalize self1 w1).2)
  /\ trace (finalize self1 w1).2 = trace w1 ++ [Ia_destroy; Emit_done]
  /\ in_flight (finalize self1 w1).2 = 1.
Proof.
  vm_compute. repeat split; eauto.
Qed.

(** * Further properties of the code *)

(** ** Releasing handles *)

Lemma omap_ext_elem {A B} (f g : A -> option B) (l : list A) :
  (forall x, x ∈ l -> f x = g x) -> omap f l = omap g l.
Proof.
  induction l as [|x l IH]; intros Hfg; [done|].
  csimpl. rewrite (Hfg x) by (by left).
  rewrite IH; [done|]. intros y Hy. apply Hfg. by right.
Qed.

(** X1. Handles that are all in flight can be released in any order: as
    long as the addresses are distinct, each holds an unreleased handle
    and the pool counter covers them, every release succeeds; the counter
    drops by their number, each buffer is queued exactly once, in the
    order of the releases, the handles released are cleared and the other
    objects are untouched. *)
Theorem releases_in_any_order :
  forall (order : list nat) (w : World),
    NoDup order ->
    (forall a, a ∈ order ->
       exists obj b, heap w !! a = Some obj /\ _buffer obj = Some b) ->
    Z.of_nat (length order) <= in_flight w ->
    in_flight (consumer order w) = in_flight w - Z.of_nat (length order)
    /\ trace (consumer order w)
       = trace w
         ++ omap (fun a => obj ← heap w !! a; b ← _buffer obj;
                           Some (Queue_buffer (raw_buffer b))) order
    /\ (forall a, a ∈ order ->
          exists obj, heap (consumer order w) !! a = Some obj
                      /\ _buffer obj = None)
    /\ (forall a, a ∉ order -> heap (consumer order w) !! a = heap w !! a).
Proof.
  induction order as [|a order IH]; intros w Hnd Hlive Hcount.
  - simpl. split; [lia|]. split; [by rewrite app_nil_r|]. split; [|done].
    intros a Ha. by apply elem_of_nil in Ha.
  - apply NoDup_cons in Hnd as [Hna Hnd].
    destruct (Hlive a) as (obj & b & Hl & Hb); [by left|].
    simpl length in Hcount.
    assert (0 < in_flight w) as Hpos by lia.
    simpl consumer. rewrite (release_live a obj b w Hl Hb Hpos). simpl snd.
    set (w1 := {| _BUFFER_BOOL := BufferPool.Make (in_flight w - 1);
                  heap := <[a:={| _i := _i obj; _buffer := None |}]> (heap w);
                  trace := trace w ++ [Queue_buffer (raw_buffer b)];
                  num_images := num_images w |}).
    assert (forall x, x <> a -> heap w1 !! x = heap w !! x) as Hother.
    { intros x Hx. simpl. by apply list_lookup_insert_ne. }
    destruct (IH w1 Hnd) as (Hc & Ht & Hr & Hk).
    { intros x Hx. rewrite Hother by (intros ->; done).
      apply Hlive. by right. }
    { unfold in_flight at 1. simpl. lia. }
    split; [|split; [|split]].
    + rewrite Hc. unfold in_flight at 1. simpl. lia.
    + rewrite Ht. simpl trace. rewrite <- app_assoc. f_equal.
      simpl omap. rewrite Hl. simpl. rewrite Hb. simpl. f_equal.
      apply omap_ext_elem. intros x Hx.
      rewrite Hother; [done|]. by intros ->.
    + intros x Hx. apply elem_of_cons in Hx as [->|Hx]; [|by apply Hr].
      rewrite Hk by done. simpl.
      rewrite list_lookup_insert_eq by (by eapply lookup_lt_Some). by eexists.
    + intros x Hx. apply not_elem_of_cons in Hx as [Hxa Hx].
      rewrite Hk by done. by apply Hother.
Qed.

Lemma releases_in_any_order_witness :
  let w := (ImageBuffer_init 8 sample_buffer
              (ImageBuffer_init 7 sample_buffer initial_world).2).2 in
  in_flight (consumer [1; 0]%nat w) = in_flight w - Z.of_nat 2
  /\ trace (consumer [1; 0]%nat w)
     = trace w
       ++ omap (fun a => obj ← heap w !! a; b ← _buffer obj;
                         Some (Queue_buffer (raw_buffer b))) [1; 0]%nat
  /\ (forall a, a ∈ [1; 0]%nat ->
        exists obj, heap (consumer [1; 0]%nat w) !! a = Some obj
                    /\ _buffer obj = None)
  /\ (forall a, a ∉ [1; 0]%nat -> heap (consumer [1; 0]%nat w) !! a = heap w !! a).
Proof.
  apply (releases_in_any_order [1; 0]%nat
           (ImageBuffer_init 8 sample_buffer
              (ImageBuffer_init 7 sample_buffer initial_world).2).2).
  - by_evaluation.
  - intros a Ha.
    apply elem_of_cons in Ha as [->|Ha]; [by eexists _, _|].
    apply elem_of_cons in Ha as [->|Ha]; [by eexists _, _|].
    by apply elem_of_nil in Ha.
  - vm_compute. discriminate.
Defined.

(** X2. A second release of a handle, made while exactly one other handle
    is in flight, takes that handle's count: the call raises the attribute
    error only after lowering the counter to zero, and the release of the
    handle still in flight then raises the assertion error and never
    queues its buffer. *)
Theorem double_release_takes_anothers_count :
  forall (w : World) (a b : nat) (obj_a obj_b : ImageBuffer) (buf : Buffer),
    heap w !! a = Some obj_a -> _buffer obj_a = None ->
    heap w !! b = Some obj_b -> _buffer obj_b = Some buf ->
    in_flight w = 1 ->
    exists w1,
      release a w = (Raise AttributeError, w1)
      /\ in_flight w1 = 0
      /\ heap w1 = heap w
      /\ trace w1 = trace w
      /\ release b w1 = (Raise AssertionError, w1).
Proof.
  intros w a b obj_a obj_b buf Ha Hna Hb Hbuf Hone.
  rewrite (release_released a obj_a w Ha Hna) by lia.
  eexists. split; [done|]. rewrite Hone.
  split; [done|]. split; [done|]. split; [done|].
  by apply (release_at_zero b obj_b).
Qed.

Lemma double_release_takes_anothers_count_witness :
  let w := (release 0
              (ImageBuffer_init 8 sample_buffer
                 (ImageBuffer_init 7 sample_buffer initial_world).2).2).2 in
  exists w1,
    release 0 w = (Raise AttributeError, w1)
    /\ in_flight w1 = 0
    /\ heap w1 = heap w
    /\ trace w1 = trace w
    /\ release 1 w1 = (Raise AssertionError, w1).
Proof.
  apply (double_release_takes_anothers_count
           (release 0
              (ImageBuffer_init 8 sample_buffer
                 (ImageBuffer_init 7 sample_buffer initial_world).2).2).2
           0%nat 1%nat
           {| _i := 7; _buffer := None |}
           {| _i := 8; _buffer := Some sample_buffer |} sample_buffer);
    reflexivity.
Defined.

(** X3. Once a handle has been released, asking it for its image raises
    the attribute error, whatever the pixel tables. *)
Theorem image_after_release_raises :
  forall (tables : Pfnc) (w w' : World) (a : nat) (obj obj' : ImageBuffer),
    heap w !! a = Some obj ->
    release a w = (Ok tt, w') ->
    heap w' !! a = Some obj' ->
    image obj' = Raise AttributeError.
Proof.
  intros tables w w' a obj obj' Hl Hr Hl'.
  destruct (Z.ltb_spec 0 (in_flight w)) as [Hp|Hp].
  2: { by rewrite (release_at_zero a obj w Hl Hp) in Hr. }
  destruct (_buffer obj) as [b|] eqn:Hb.
  2: { by rewrite (release_released a obj w Hl Hb Hp) in Hr. }
  rewrite (release_live a obj b w Hl Hb Hp) in Hr.
  injection Hr as <-. simpl in Hl'.
  rewrite list_lookup_insert_eq in Hl' by (by eapply lookup_lt_Some).
  by injection Hl' as <-.
Qed.

Lemma image_after_release_raises_witness :
  image {| _i := 7; _buffer := None |} = Raise AttributeError.
Proof.
  apply (image_after_release_raises Harvesters.pfnc
           (ImageBuffer_init 7 sample_buffer initial_world).2
           (release 0 (ImageBuffer_init 7 sample_buffer initial_world).2).2
           0%nat {| _i := 7; _buffer := Some sample_buffer |}
           {| _i := 7; _buffer := None |});
    reflexivity.
Defined.

(** ** The image of a handle *)

Lemma length_reverse_groups (n c : nat) : forall l : list Z,
  length l = (n * c)%nat -> length (reverse_groups n c l) = (n * c)%nat.
Proof.
  induction n as [|n IH]; intros l Hl; [done|].
  simpl. rewrite length_app, length_rev, length_take, IH.
  - lia.
  - rewrite length_drop. lia.
Qed.

Section MoreImageFacts.
Context `{Pfnc}.

(** Where an image is built, the content it is built from came through
    the three-dimensional branch. *)
Lemma image_some_inv (self : ImageBuffer) (buffer : Buffer)
    (component : Component) (rest : list Component) (q : QImage) :
  _buffer self = Some buffer ->
  components (raw_buffer buffer) = component :: rest ->
  image self = Ok (Some q) ->
  exists bpp c0,
    get_bits_per_pixel (data_format component) = Some bpp
    /\ reshaped_content component = Ok (Some c0)
    /\ shape c0 = [height component; width component;
                   num_components_per_pixel component]
    /\ length (elems c0)
       = (height component * width component
          * num_components_per_pixel component)%nat
    /\ length (data component) = length (elems c0)
    /\ (data_format component ∉ mono_location_formats)
    /\ (data_format component ∉ bayer_location_formats)
    /\ q = {| bits := map (scaled bpp) (elems c0);
              qwidth := width component;
              qheight := height component;
              bytesPerLine := 3 * width component;
              qformat := Format_RGB888 |}.
Proof.
  intros Hb Hcs. rewrite (image_of_component self buffer component rest Hb Hcs).
  destruct (content_8bit component) as [[content|]|e] eqn:Hc; [|done|done].
  apply content_8bit_inv in Hc as (bpp & c0 & _ & Hbpp & Hr & ->).
  destruct (map_scaled bpp c0) as [He Hs]. rewrite Hs, He.
  intros Hq. exists bpp, c0. split; [done|]. split; [done|].
  revert Hr Hq. unfold reshaped_content.
  destruct (bool_decide (data_format component ∈ mono_location_formats)) eqn:Hm;
    simpl.
  { destruct (reshape _ _) as [c|e] eqn:E; simpl; [|done].
    intros [= <-]. by apply reshape_inv in E as [-> _]. }
  destruct (bool_decide (data_format component ∈ bayer_location_formats)) eqn:Hy;
    simpl.
  { destruct (reshape _ _) as [c|e] eqn:E; simpl; [|done].
    intros [= <-]. by apply reshape_inv in E as [-> _]. }
  apply bool_decide_eq_false in Hm, Hy.
  destruct (_ || _ || _ || _); [|done].
  destruct (reshape _ _) as [c|e] eqn:E; simpl; [|done].
  apply reshape_inv in E as [-> E]. simpl in E.
  destruct (bool_decide (data_format component ∈ bgr_formats)); simpl.
  - intros [= <-]. simpl. destruct (c_contiguous _); [|done]. intros [= <-].
    rewrite length_reverse_groups by lia. repeat split; try done; lia.
  - intros [= <-]. simpl. destruct (c_contiguous _); [|done]. intros [= <-].
    repeat split; try done; lia.
Qed.

End MoreImageFacts.

(** X4. For a handle with a buffer and a first component, [image] returns
    without an image exactly when the format value is custom, or the bit
    depth of the format is unknown, or the format is in none of the six
    tables; in every other case it builds an image or raises. *)
Theorem image_is_none_exactly_when_unsupported :
  forall (tables : Pfnc) (self : ImageBuffer) (buffer : Buffer)
         (component : Component) (rest : list Component),
    _buffer self = Some buffer ->
    components (raw_buffer buffer) = component :: rest ->
    (image self = Ok None
     <-> is_custom (data_format_value component) = true
         \/ get_bits_per_pixel (data_format component) = None
         \/ ((data_format component ∉ mono_location_formats)
             /\ (data_format component ∉ bayer_location_formats)
             /\ (data_format component ∉ rgb_formats)
             /\ (data_format component ∉ rgba_formats)
             /\ (data_format component ∉ bgr_formats)
             /\ (data_format component ∉ bgra_formats))).
Proof.
  intros tables self buffer component rest Hb Hcs.
  rewrite (image_of_component self buffer component rest Hb Hcs).
  unfold content_8bit.
  destruct (is_custom (data_format_value component)); [by split; [left|]|].
  destruct (get_bits_per_pixel (data_format component)) as [bpp|];
    [|by split; [right; left|]].
  unfold reshaped_content.
  destruct (bool_decide (data_format component ∈ mono_location_formats)) eqn:Hm;
    simpl.
  { apply bool_decide_eq_true in Hm.
    destruct (reshape _ _) as [c|e] eqn:E; simpl.
    - apply reshape_inv in E as [-> _].
      split; [by destruct (0 <? bpp - 8) | intros [|[|[]]]; done].
    - split; [done | intros [|[|[]]]; done]. }
  destruct (bool_decide (data_format component ∈ bayer_location_formats)) eqn:Hy;
    simpl.
  { apply bool_decide_eq_true in Hy.
    destruct (reshape _ _) as [c|e] eqn:E; simpl.
    - apply reshape_inv in E as [-> _].
      split; [by destruct (0 <? bpp - 8) | intros [|[|(_ & ? & _)]]; done].
    - split; [done | intros [|[|(_ & ? & _)]]; done]. }
  apply bool_decide_eq_false in Hm, Hy.
  destruct (bool_decide (data_format component ∈ rgb_formats)
            || bool_decide (data_format component ∈ rgba_formats)
            || bool_decide (data_format component ∈ bgr_formats)
            || bool_decide (data_format component ∈ bgra_formats)) eqn:Hany.
  - assert (~ ((data_format component ∉ rgb_formats)
               /\ (data_format component ∉ rgba_formats)
               /\ (data_format component ∉ bgr_formats)
               /\ (data_format component ∉ bgra_formats))) as Hsome.
    { rewrite !orb_true_iff, !bool_decide_eq_true in Hany. tauto. }
    destruct (reshape _ _) as [c|e] eqn:E; simpl.
    2: { split; [done | intros [|[|]]; [done | done | tauto]]. }
    apply reshape_inv in E as [-> _].
    split; [|intros [|[|]]; [done | done | tauto]].
    destruct (bool_decide (data_format component ∈ bgr_formats));
      destruct (0 <? bpp - 8); simpl; try done.
    match goal with
    | |- context [if ?b then _ else Raise TypeError] => by destruct b
    end.
  - rewrite !orb_false_iff, !bool_decide_eq_false in Hany.
    split; [intros _; right; right; tauto | done].
Qed.

Lemma image_is_none_exactly_when_unsupported_witness :
  let component :=
    {| width := 2; height := 1; data_format_value := 0x80000001;
       data_format := "Mono8"; data := [1; 2];
       num_components_per_pixel := 1 |} in
  image (Harvesters.handle 0 component) = Ok None
  <-> is_custom 0x80000001 = true
      \/ get_bits_per_pixel "Mono8" = None
      \/ (("Mono8" ∉ mono_location_formats)
          /\ ("Mono8" ∉ bayer_location_formats)
          /\ ("Mono8" ∉ rgb_formats)
          /\ ("Mono8" ∉ rgba_formats)
          /\ ("Mono8" ∉ bgr_formats)
          /\ ("Mono8" ∉ bgra_formats)).
Proof.
  apply (image_is_none_exactly_when_unsupported Harvesters.pfnc
           (Harvesters.handle 0
              {| width := 2; height := 1; data_format_value := 0x80000001;
                 data_format := "Mono8"; data := [1; 2];
                 num_components_per_pixel := 1 |})
           {| raw_buffer :=
                Harvesters.image_buffer 0
                  {| width := 2; height := 1; data_format_value := 0x80000001;
                     data_format := "Mono8"; data := [1; 2];
                     num_components_per_pixel := 1 |} |}
           {| width := 2; height := 1; data_format_value := 0x80000001;
              data_format := "Mono8"; data := [1; 2];
              num_components_per_pixel := 1 |} []);
    reflexivity.
Defined.

(** X5. Where [image] builds an image, its width and height are those of
    the component, its stride is three times the width, and it carries
    height x width x components-per-pixel samples: the buffer fills the
    rows the stride describes exactly when the component has three
    samples per pixel or no pixel at all. *)
Theorem image_geometry :
  forall (tables : Pfnc) (self : ImageBuffer) (buffer : Buffer)
         (component : Component) (rest : list Component) (q : QImage),
    _buffer self = Some buffer ->
    components (raw_buffer buffer) = component :: rest ->
    image self = Ok (Some q) ->
    qwidth q = width component
    /\ qheight q = height component
    /\ bytesPerLine q = (3 * width component)%nat
    /\ qformat q = Format_RGB888
    /\ length (bits q)
       = (height component * width component
          * num_components_per_pixel component)%nat
    /\ length (data component) = length (bits q)
    /\ (length (bits q) = (bytesPerLine q * qheight q)%nat
        <-> num_components_per_pixel component = 3%nat
            \/ (height component * width component = 0)%nat).
Proof.
  intros tables self buffer component rest q Hb Hcs Hq.
  destruct (image_some_inv self buffer component rest q Hb Hcs Hq)
    as (bpp & c0 & _ & _ & _ & Hlen & Hdata & _ & _ & ->).
  simpl. rewrite length_map.
  split; [done|]. split; [done|]. split; [done|]. split; [done|].
  split; [done|]. split; [done|].
  rewrite Hlen.
  generalize (height component) (width component)
    (num_components_per_pixel component).
  intros h w c. split.
  - intros Heq.
    destruct (Nat.eq_dec (h * w)%nat 0%nat) as [|Hne]; [by right|left].
    destruct c as [|[|[|[|c]]]]; nia.
  - intros [->|Hz]; [lia | rewrite Hz; nia].
Qed.

Lemma image_geometry_witness :
  let q := {| bits := [10; 20; 30; 40]; qwidth := 1; qheight := 1;
              bytesPerLine := 3; qformat := Format_RGB888 |} in
  qwidth q = 1%nat
  /\ qheight q = 1%nat
  /\ bytesPerLine q = (3 * 1)%nat
  /\ qformat q = Format_RGB888
  /\ length (bits q) = (1 * 1 * 4)%nat
  /\ length [10; 20; 30; 40] = length (bits q)
  /\ (length (bits q) = (bytesPerLine q * qheight q)%nat
      <-> 4%nat = 3%nat \/ (1 * 1 = 0)%nat).
Proof.
  apply (image_geometry Harvesters.pfnc
           (Harvesters.handle 0
              (Harvesters.component "BGRa8" 1 1 4 [10; 20; 30; 40]))
           {| raw_buffer :=
                Harvesters.image_buffer 0
                  (Harvesters.component "BGRa8" 1 1 4 [10; 20; 30; 40]) |}
           (Harvesters.component "BGRa8" 1 1 4 [10; 20; 30; 40]) []
           {| bits := [10; 20; 30; 40]; qwidth := 1; qheight := 1;
              bytesPerLine := 3; qformat := Format_RGB888 |});
    reflexivity.
Defined.

(** X6. Where [image] builds an image from a format deeper than 8 bits,
    every sample it hands to [QImage] is a byte, whatever the raw samples
    were. *)
Theorem deep_samples_become_bytes :
  forall (tables : Pfnc) (self : ImageBuffer) (buffer : Buffer)
         (component : Component) (rest : list Component) (q : QImage) (bpp : Z),
    _buffer self = Some buffer ->
    components (raw_buffer buffer) = component :: rest ->
    get_bits_per_pixel (data_format component) = Some bpp ->
    8 < bpp ->
    image self = Ok (Some q) ->
    Forall (fun v => 0 <= v < 256) (bits q).
Proof.
  intros tables self buffer component rest q bpp Hb Hcs Hbpp Hdeep Hq.
  destruct (image_some_inv self buffer component rest q Hb Hcs Hq)
    as (bpp' & c0 & Hbpp' & _ & _ & _ & _ & _ & _ & ->).
  rewrite Hbpp in Hbpp'. injection Hbpp' as <-. simpl.
  apply Forall_forall. intros v Hv.
  apply list_elem_of_fmap in Hv as (x & -> & _).
  unfold scaled, to_8bit.
  destruct (Z.ltb_spec 0 (bpp - 8)); [|lia].
  apply Z.mod_pos_bound. lia.
Qed.

Lemma deep_samples_become_bytes_witness :
  Forall (fun v => 0 <= v < 256) [4; 8; 255].
Proof.
  apply (deep_samples_become_bytes Harvesters.pfnc
           (Harvesters.handle 0
              (Harvesters.component "RGB16" 1 1 3 [1024; 2048; 65535]))
           {| raw_buffer :=
                Harvesters.image_buffer 0
                  (Harvesters.component "RGB16" 1 1 3 [1024; 2048; 65535]) |}
           (Harvesters.component "RGB16" 1 1 3 [1024; 2048; 65535]) []
           {| bits := [4; 8; 255]; qwidth := 1; qheight := 1;
              bytesPerLine := 3; qformat := Format_RGB888 |} 16);
    reflexivity.
Defined.

(** ** Counting in the acquisition loop *)

Lemma tally_refl (exact : bool) (w : World) : tally exact 0 w w.
Proof.
  unfold tally. rewrite Nat.add_0_r, Z.add_0_r.
  repeat split; try lia. destruct exact; lia.
Qed.

Lemma tally_trans (exact : bool) (k1 k2 : nat) (w1 w2 w3 : World) :
  tally exact k1 w1 w2 -> tally exact k2 w2 w3 -> tally exact (k1 + k2) w1 w3.
Proof.
  unfold tally. intros (Hf1 & Hn1 & Hh1 & Hp1) (Hf2 & Hn2 & Hh2 & Hp2).
  repeat split; try lia. destruct exact; lia.
Qed.

Lemma tally_weaken (k : nat) (w w' : World) :
  tally true k w w' -> tally false k w w'.
Proof. unfold tally. intros (? & ? & ? & ?). repeat split; try done; lia. Qed.

Lemma release_tally (a : nat) (w : World) : tally false 0 w (release a w).2.
Proof.
  destruct (heap w !! a) as [obj|] eqn:Hl.
  2: { rewrite release_unknown by done. apply tally_refl. }
  destruct (Z.ltb_spec 0 (in_flight w)) as [Hp|Hp].
  2: { rewrite (release_at_zero a obj) by done. apply tally_refl. }
  destruct (_buffer obj) as [b|] eqn:Hb.
  - rewrite (release_live a obj b) by done.
    unfold tally, frames_announced, frame_events, in_flight. simpl.
    rewrite omap_app, length_app, length_insert. simpl.
    unfold in_flight in Hp. repeat split; lia.
  - rewrite (release_released a obj) by done.
    unfold tally, frames_announced, in_flight. simpl.
    unfold in_flight in Hp. repeat split; lia.
Qed.

Lemma consumer_tally (handles : list nat) : forall w : World,
  tally false 0 w (consumer handles w).
Proof.
  induction handles as [|a handles IH]; intros w; simpl.
  - apply tally_refl.
  - apply (tally_trans false 0 0 w (release a w).2); [apply release_tally | apply IH].
Qed.

Lemma queue_buffer_tally (exact : bool) (gb : GenicamBuffer) (w : World) :
  tally exact 0 w (queue_buffer gb w).
Proof.
  unfold tally, frames_announced, frame_events, in_flight. simpl.
  rewrite omap_app, length_app. simpl.
  repeat split; try lia. destruct exact; lia.
Qed.

Lemma handle_one_buffer_tally (exact : bool) (i : Z) (t : Tick)
    (self : ImageReaderThread) (w : World)
    (r : Res unit) (self' : ImageReaderThread) (w' : World) :
  handle_one_buffer i t self w = (r, self', w') ->
  exists k, tally exact k w w'.
Proof.
  unfold handle_one_buffer.
  destruct (wait t) as [e|gb].
  - destruct e; intros [= <- <- <-]; exists 0%nat; apply tally_refl.
  - destruct (is_complete gb); simpl.
    2: { intros [= <- <- <-]. exists 0%nat. apply queue_buffer_tally. }
    destruct (bool_decide (payload_type gb ∈ _VISIBLE_PAYLOADS)); simpl.
    2: { intros [= <- <- <-]. exists 0%nat. apply queue_buffer_tally. }
    destruct (_stop_acquisition _).
    { intros [= <- <- <-]. exists 0%nat. apply queue_buffer_tally. }
    intros [= <- <- <-]. exists 1%nat.
    unfold tally, frames_announced, frame_events, in_flight. simpl.
    rewrite omap_app, !length_app. simpl.
    repeat split; try lia. destruct exact; lia.
Qed.

Lemma iteration_tally (exact : bool) (i : Z) (t : Tick)
    (self : ImageReaderThread) (w : World)
    (c : Control) (self' : ImageReaderThread) (w' : World) :
  iteration i t self w = (c, self', w') ->
  exists k, tally exact k w w'.
Proof.
  unfold iteration.
  destruct (ia_is_acquiring t); simpl.
  2: { intros [= <- <- <-]. exists 0%nat. apply tally_refl. }
  destruct (_stop_acquisition self).
  - destruct (BufferPool.buffers_in_use (_BUFFER_BOOL w)) as [[|]|e];
      intros [= <- <- <-]; exists 0%nat; try apply tally_refl.
    unfold tally, frames_announced, frame_events, in_flight. simpl.
    rewrite omap_app, length_app. simpl.
    repeat split; try lia. destruct exact; lia.
  - destruct (handle_one_buffer i t self w) as [[r self1] w1] eqn:Hh.
    apply (handle_one_buffer_tally exact) in Hh as (k & Hk).
    destruct r; intros [= <- <- <-]; by exists k.
Qed.

(** X7. Across any stretch of the loop, on whatever schedule, the image
    count of the statistics and the number of handles created each grow by
    exactly the number of frames announced, and the pool counter by at
    most that number; by exactly that number when the consumer releases
    nothing meanwhile. *)
Theorem loop_counts_what_it_announces :
  forall (schedule : list Tick) (i : Z) (self : ImageReaderThread) (w : World)
         (x : LoopExit) (self' : ImageReaderThread) (w' : World),
    run_loop i schedule self w = (x, self', w') ->
    exists k : nat,
      frames_announced w' = (frames_announced w + k)%nat
      /\ num_images w' = num_images w + Z.of_nat k
      /\ length (heap w') = (length (heap w) + k)%nat
      /\ in_flight w' <= in_flight w + Z.of_nat k
      /\ (consumer_idle schedule -> in_flight w' = in_flight w + Z.of_nat k).
Proof.
  assert (forall exact schedule,
             (exact = true -> consumer_idle schedule) ->
             forall i self w x self' w',
               run_loop i schedule self w = (x, self', w') ->
               exists k, tally exact k w w') as Hgen.
  { intros exact schedule.
    induction schedule as [|t schedule IH]; intros Hidle i self w x self' w'.
    - intros [= <- <- <-]. exists 0%nat. apply tally_refl.
    - rewrite run_loop_cons.
      assert (tally exact 0 w (environment t self w).2) as Henv.
      { destruct exact; [|apply consumer_tally].
        specialize (Hidle eq_refl). apply Forall_cons in Hidle as [Ht _].
        unfold environment. simpl. rewrite Ht. apply tally_refl. }
      revert Henv.
      generalize (environment t self w).1 (environment t self w).2.
      intros self0 w0 Henv.
      destruct (iteration i t self0 w0) as [[c self1] w1] eqn:Hit.
      apply (iteration_tally exact) in Hit as (k1 & Hk1).
      pose proof (tally_trans exact 0 k1 w w0 w1 Henv Hk1) as H01.
      destruct c.
      + intros Hrun. apply IH in Hrun as (k2 & Hk2).
        * exists (k1 + k2)%nat.
          by apply (tally_trans exact (0 + k1) k2 w w1 w').
        * intros ->. specialize (Hidle eq_refl).
          by apply Forall_cons in Hidle as [_ ?].
      + intros [= <- <- <-]. by exists k1.
      + intros [= <- <- <-]. by exists k1. }
  intros schedule i self w x self' w' Hrun.
  destruct (Hgen false schedule ltac:(done) _ _ _ _ _ _ Hrun)
    as (k & Hf & Hn & Hh & Hp).
  exists k. repeat split; try done.
  intros Hidle.
  destruct (Hgen true schedule (fun _ => Hidle) _ _ _ _ _ _ Hrun)
    as (k' & Hf' & _ & _ & Hp').
  assert (k' = k) as -> by lia. done.
Qed.

Lemma loop_counts_what_it_announces_witness :
  let w' := (run_loop 0 [tick_frame 0; tick_incomplete 1; tick_frame 2]
               fresh_thread.1 fresh_thread.2).2 in
  exists k : nat,
    frames_announced w' = (frames_announced fresh_thread.2 + k)%nat
    /\ num_images w' = num_images fresh_thread.2 + Z.of_nat k
    /\ length (heap w') = (length (heap fresh_thread.2) + k)%nat
    /\ in_flight w' <= in_flight fresh_thread.2 + Z.of_nat k
    /\ (consumer_idle [tick_frame 0; tick_incomplete 1; tick_frame 2] ->
        in_flight w' = in_flight fresh_thread.2 + Z.of_nat k).
Proof.
  apply (loop_counts_what_it_announces
           [tick_frame 0; tick_incomplete 1; tick_frame 2] 0
           fresh_thread.1 fresh_thread.2 (Still_looping 3)
           (run_loop 0 [tick_frame 0; tick_incomplete 1; tick_frame 2]
              fresh_thread.1 fresh_thread.2).1.2).
  reflexivity.
Defined.

(** ** Stopping *)

Lemma environment_keeps_stop (t : Tick) (self : ImageReaderThread) (w : World) :
  _stop_acquisition self = true ->
  _stop_acquisition (environment t self w).1 = true.
Proof. intros Hs. unfold environment. simpl. by destruct (stop_pressed t). Qed.

(** An iteration that starts with the stop flag set leaves the loop and
    announces nothing. *)
Lemma stopped_loop_leaves (t : Tick) (schedule : list Tick) (i : Z)
    (self : ImageReaderThread) (w : World)
    (x : LoopExit) (self' : ImageReaderThread) (w' : World) :
  _stop_acquisition (environment t self w).1 = true ->
  run_loop i (t :: schedule) self w = (x, self', w') ->
  frames_announced w' = frames_announced w
  /\ num_images w' = num_images w
  /\ (forall j, x <> Still_looping j).
Proof.
  intros Hstop. rewrite run_loop_cons.
  pose proof (consumer_tally (consumer_releases t) w) as (Hf & Hn & _).
  change (consumer (consumer_releases t) w) with (environment t self w).2 in Hf, Hn.
  revert Hstop Hf Hn.
  generalize (environment t self w).1 (environment t self w).2.
  intros self0 w0 Hstop Hf Hn.
  unfold iteration. rewrite Hstop.
  destruct (ia_is_acquiring t); simpl.
  2: { intros [= <- <- <-]. repeat split; [lia | lia | done]. }
  destruct (BufferPool.buffers_in_use (_BUFFER_BOOL w0)) as [[|]|e];
    intros [= <- <- <-]; (repeat split; [|simpl; lia | done]); try lia.
  unfold frames_announced, frame_events in *. simpl.
  rewrite omap_app, length_app. simpl. lia.
Qed.

(** X8. Once the stop flag is set, no frame is announced any more: whether
    the flag was set before the iteration, is set at its start, or is set
    while the iteration waits for a buffer, the rest of the loop announces
    no frame and counts no image, and the loop is left by the start of the
    next iteration at the latest. *)
Theorem no_frame_after_stop :
  forall (t : Tick) (schedule : list Tick) (i : Z)
         (self : ImageReaderThread) (w : World)
         (x : LoopExit) (self' : ImageReaderThread) (w' : World),
    _stop_acquisition self = true
    \/ stop_pressed t = true
    \/ stop_pressed_during_wait t = true ->
    run_loop i (t :: schedule) self w = (x, self', w') ->
    frames_announced w' = frames_announced w
    /\ num_images w' = num_images w
    /\ (forall j, x = Still_looping j -> schedule = [] /\ j = i + 1).
Proof.
  intros t schedule i self w x self' w' Hstop Hrun.
  destruct (_stop_acquisition (environment t self w).1) eqn:Henv.
  { destruct (stopped_loop_leaves _ _ _ _ _ _ _ _ Henv Hrun) as (Hf & Hn & Hx).
    split; [done|]. split; [done|]. intros j ->. by destruct (Hx j). }
  assert (stop_pressed_during_wait t = true) as Hduring.
  { destruct Hstop as [Hs|[Hs|Hs]]; [| |done].
    - by rewrite (environment_keeps_stop t self w Hs) in Henv.
    - unfold environment in Henv. simpl in Henv. by rewrite Hs in Henv. }
  revert Hrun. rewrite run_loop_cons.
  pose proof (consumer_tally (consumer_releases t) w) as (Hf & Hn & _).
  change (consumer (consumer_releases t) w) with (environment t self w).2 in Hf, Hn.
  revert Henv Hf Hn.
  generalize (environment t self w).1 (environment t self w).2.
  intros self0 w0 Henv Hf Hn.
  unfold iteration. rewrite Henv.
  destruct (ia_is_acquiring t); simpl.
  2: { intros [= <- <- <-]. split; [lia|]. split; [lia|]. by intros j [=]. }
  assert (exists w1,
             (handle_one_buffer i t self0 w0 = (Ok tt, stop_acquisition self0, w1)
              \/ exists e, handle_one_buffer i t self0 w0
                           = (Raise e, stop_acquisition self0, w1))
             /\ frames_announced w1 = frames_announced w0
             /\ num_images w1 = num_images w0) as (w1 & Hh & Hf1 & Hn1).
  { unfold handle_one_buffer. rewrite Hduring.
    destruct (wait t) as [e|gb].
    - exists w0. split; [|done]. destruct e; eauto.
    - exists (queue_buffer gb w0).
      pose proof (queue_buffer_tally false gb w0) as (Hq & Hqn & _).
      split; [|split; lia]. left.
      destruct (is_complete gb); simpl; [|done].
      by destruct (bool_decide (payload_type gb ∈ _VISIBLE_PAYLOADS)). }
  destruct Hh as [->|[e ->]].
  2: { intros [= <- <- <-]. split; [lia|]. split; [lia|]. by intros j [=]. }
  destruct schedule as [|t' schedule].
  { intros [= <- <- <-]. split; [lia|]. split; [lia|]. by intros j [= <-]. }
  intros Hrun.
  destruct (stopped_loop_leaves t' schedule (i + 1) (stop_acquisition self0) w1
              x self' w') as (Hf2 & Hn2 & Hx); [|done|].
  { by apply environment_keeps_stop. }
  split; [lia|]. split; [lia|]. intros j ->. by destruct (Hx j).
Qed.

Lemma no_frame_after_stop_witness :
  let t := {| consumer_releases := []; stop_pressed := false;
              ia_is_acquiring := true; wait := NewBuffer (sample_frame 0);
              stop_pressed_during_wait := true |} in
  let r := run_loop 0 [t; tick_frame 1; tick_frame 2]
             fresh_thread.1 fresh_thread.2 in
  frames_announced r.2 = frames_announced fresh_thread.2
  /\ num_images r.2 = num_images fresh_thread.2
  /\ (forall j, r.1.1 = Still_looping j ->
        [tick_frame 1; tick_frame 2] = [] /\ j = 0 + 1).
Proof.
  apply (no_frame_after_stop
           {| consumer_releases := []; stop_pressed := false;
              ia_is_acquiring := true; wait := NewBuffer (sample_frame 0);
              stop_pressed_during_wait := true |}
           [tick_frame 1; tick_frame 2] 0 fresh_thread.1 fresh_thread.2
           _ (run_loop 0
                [{| consumer_releases := []; stop_pressed := false;
                    ia_is_acquiring := true; wait := NewBuffer (sample_frame 0);
                    stop_pressed_during_wait := true |};
                 tick_frame 1; tick_frame 2]
                fresh_thread.1 fresh_thread.2).1.2);
    [right; right; reflexivity | reflexivity].
Defined.

(** ** Runs *)

(** X9. A thread object whose [run] has returned cannot run again: a
    second call raises the attribute error before any call reaches the
    camera, and leaves the thread object and the world as they were. *)
Theorem run_after_return_raises :
  forall (schedule schedule' : list Tick) (self : ImageReaderThread) (w : World)
         (self' : ImageReaderThread) (w' : World),
    run schedule self w = (Returned, self', w') ->
    run schedule' self' w' = (Propagated AttributeError, self', w').
Proof.
  intros schedule schedule' self w self' w'. unfold run at 1.
  destruct (_ia self); [|done].
  destruct (run_loop 0 schedule self (log Ia_start_acquisition w))
    as [[[| |] self1] w1]; [|done|done].
  simpl. intros [= <- <-]. reflexivity.
Qed.

Lemma run_after_return_raises_witness :
  run [tick_frame 5]
    (run [tick_frame 0; tick_stop [0%nat]] fresh_thread.1 fresh_thread.2).1.2
    (run [tick_frame 0; tick_stop [0%nat]] fresh_thread.1 fresh_thread.2).2
  = (Propagated AttributeError,
     (run [tick_frame 0; tick_stop [0%nat]] fresh_thread.1 fresh_thread.2).1.2,
     (run [tick_frame 0; tick_stop [0%nat]] fresh_thread.1 fresh_thread.2).2).
Proof.
  apply (run_after_return_raises [tick_frame 0; tick_stop [0%nat]] [tick_frame 5]
           fresh_thread.1 fresh_thread.2).
  reflexivity.
Defined.

(** Every buffer the camera delivers is either handed on or handed
    back, never both and never neither. If it is complete, of a visible
    payload type, and no stop was requested by then, it is wrapped in a
    new handle that carries the iteration number, counted in the pool and
    in the statistics, and announced; otherwise it is queued back to the
    camera at once and nothing else changes. *)
Theorem delivered_buffer_is_announced_or_queued :
  forall (i : Z) (t : Tick) (self : ImageReaderThread) (w : World)
         (genicam_buffer : GenicamBuffer),
    wait t = NewBuffer genicam_buffer ->
    let self' :=
      if stop_pressed_during_wait t then stop_acquisition self else self in
    let accepted :=
      is_complete genicam_buffer
      && bool_decide (payload_type genicam_buffer ∈ _VISIBLE_PAYLOADS)
      && negb (_stop_acquisition self') in
    handle_one_buffer i t self w =
      (Ok tt, self',
       if accepted then
         {| _BUFFER_BOOL := BufferPool.Make (in_flight w + 1);
            heap := heap w
                    ++ [{| _i := i;
                           _buffer := Some {| raw_buffer := genicam_buffer |} |}];
            trace := trace w ++ [Emit_image_acquired (length (heap w))];
            num_images := num_images w + 1 |}
       else
         {| _BUFFER_BOOL := _BUFFER_BOOL w;
            heap := heap w;
            trace := trace w ++ [Queue_buffer genicam_buffer];
            num_images := num_images w |}).
Proof.
  intros i t self w gb Hwait self' accepted.
  unfold handle_one_buffer. rewrite Hwait. fold self'. subst accepted.
  destruct (is_complete gb); simpl; [|done].
  destruct (bool_decide (payload_type gb ∈ _VISIBLE_PAYLOADS)); simpl; [|done].
  by destruct (_stop_acquisition self').
Qed.

Lemma delivered_buffer_is_announced_or_queued_witness :
  handle_one_buffer 4 (tick_frame 2) fresh_thread.1 fresh_thread.2
  = (Ok tt, fresh_thread.1,
     {| _BUFFER_BOOL := BufferPool.Make (in_flight fresh_thread.2 + 1);
        heap := heap fresh_thread.2
                ++ [{| _i := 4;
                       _buffer := Some {| raw_buffer := sample_frame 2 |} |}];
        trace := trace fresh_thread.2
                 ++ [Emit_image_acquired (length (heap fresh_thread.2))];
        num_images := num_images fresh_thread.2 + 1 |}).
Proof.
  apply (delivered_buffer_is_announced_or_queued 4 (tick_frame 2)
           fresh_thread.1 fresh_thread.2 (sample_frame 2)).
  reflexivity.
Defined.

(** The camera is asked to stop only by the iteration that leaves the
    loop: what a stretch of the loop adds to the trace holds no
    [stop_acquisition], save as its last event when the loop was left
    through a [break]. *)
Lemma run_loop_stops_camera_last (schedule : list Tick) :
  forall (i : Z) (self : ImageReaderThread) (w : World)
         (x : LoopExit) (self' : ImageReaderThread) (w' : World),
    run_loop i schedule self w = (x, self', w') ->
    exists tr,
      trace w' = trace w ++ tr
      /\ (count_event Ia_stop_acquisition tr = 0%nat
          \/ (x = Left_by_break
              /\ exists tr0, tr = tr0 ++ [Ia_stop_acquisition]
                             /\ count_event Ia_stop_acquisition tr0 = 0%nat)).
Proof.
  assert (forall handles w, exists tr,
             trace (consumer handles w) = trace w ++ tr
             /\ count_event Ia_stop_acquisition tr = 0%nat) as Hconsumer.
  { induction handles as [|a handles IH]; intros w; simpl.
    - exists []. by rewrite app_nil_r.
    - destruct (IH (release a w).2) as (tr2 & Ht2 & Hc2).
      assert (exists tr1, trace (release a w).2 = trace w ++ tr1
                          /\ count_event Ia_stop_acquisition tr1 = 0%nat)
        as (tr1 & Ht1 & Hc1).
      { destruct (heap w !! a) as [obj|] eqn:Hl.
        2: { rewrite release_unknown by done. exists []. by rewrite app_nil_r. }
        destruct (Z.ltb_spec 0 (in_flight w)) as [Hp|Hp].
        2: { rewrite (release_at_zero a obj) by done.
             exists []. by rewrite app_nil_r. }
        destruct (_buffer obj) as [b|] eqn:Hb.
        - rewrite (release_live a obj b) by done. by eexists.
        - rewrite (release_released a obj) by done.
          exists []. by rewrite app_nil_r. }
      exists (tr1 ++ tr2). rewrite Ht2, Ht1, <- app_assoc.
      split; [done|]. rewrite count_event_app. lia. }
  induction schedule as [|t schedule IH]; intros i self w x self' w'.
  - intros [= <- <- <-]. exists []. rewrite app_nil_r. by split; [|left].
  - rewrite run_loop_cons.
    destruct (Hconsumer (consumer_releases t) w) as (tr0 & Ht0 & Hc0).
    change (consumer (consumer_releases t) w) with (environment t self w).2 in Ht0.
    revert Ht0.
    generalize (environment t self w).1 (environment t self w).2.
    intros self0 w0 Ht0.
    unfold iteration.
    destruct (ia_is_acquiring t); simpl.
    2: { intros [= <- <- <-]. exists tr0. by split; [|left]. }
    destruct (_stop_acquisition self0).
    { destruct (BufferPool.buffers_in_use (_BUFFER_BOOL w0)) as [[|]|e];
        intros [= <- <- <-].
      - exists (tr0 ++ [Ia_stop_acquisition]). simpl.
        rewrite Ht0, <- app_assoc. split; [done|]. right. by eauto.
      - exists tr0. by split; [|left].
      - exists tr0. by split; [|left]. }
    destruct (handle_one_buffer i t self0 w0) as [[r self1] w1] eqn:Hh.
    assert (exists tr1, trace w1 = trace w0 ++ tr1
                        /\ count_event Ia_stop_acquisition tr1 = 0%nat)
      as (tr1 & Ht1 & Hc1).
    { revert Hh. unfold handle_one_buffer.
      destruct (wait t) as [e|gb].
      - destruct e; intros [= _ _ <-]; exists []; by rewrite app_nil_r.
      - destruct (is_complete gb); simpl;
          [|intros [= _ _ <-]; by eexists].
        destruct (bool_decide (payload_type gb ∈ _VISIBLE_PAYLOADS)); simpl;
          [|intros [= _ _ <-]; by eexists].
        destruct (_stop_acquisition _); intros [= _ _ <-]; by eexists. }
    destruct r as [[]|e].
    + intros Hrun. apply IH in Hrun as (tr2 & Ht2 & Hc2).
      exists (tr0 ++ tr1 ++ tr2).
      rewrite Ht2, Ht1, Ht0, <- !app_assoc. split; [done|].
      destruct Hc2 as [Hc2|(-> & tr3 & -> & Hc3)].
      * left. rewrite !count_event_app. lia.
      * right. split; [done|]. exists (tr0 ++ tr1 ++ tr3).
        rewrite <- !app_assoc. split; [done|].
        rewrite !count_event_app. lia.
    + intros [= <- <- <-]. exists (tr0 ++ tr1).
      rewrite Ht1, Ht0, <- app_assoc. split; [done|].
      left. rewrite count_event_app. lia.
Qed.

(** X10. A run that returns has asked the camera to start exactly once, as
    its first call, and to stop at most once; when it did ask it to stop,
    nothing happened between that call and [destroy]. *)
Theorem run_stops_camera_at_most_once :
  forall (schedule : list Tick) (self : ImageReaderThread) (w : World)
         (self' : ImageReaderThread) (w' : World),
    run schedule self w = (Returned, self', w') ->
    exists tr,
      count_event Ia_stop_acquisition tr = 0%nat
      /\ count_event Ia_start_acquisition tr = 0%nat
      /\ (trace w' = trace w ++ [Ia_start_acquisition] ++ tr
                     ++ [Ia_destroy; Emit_done]
          \/ trace w' = trace w ++ [Ia_start_acquisition] ++ tr
                        ++ [Ia_stop_acquisition; Ia_destroy; Emit_done]).
Proof.
  intros schedule self w self' w'. unfold run.
  destruct (_ia self); [|done].
  destruct (run_loop 0 schedule self (log Ia_start_acquisition w))
    as [[lx self1] w1] eqn:Hrun.
  destruct (run_loop_stops_camera_last _ _ _ _ _ _ _ Hrun) as (tr & Ht & Hstop).
  destruct (run_loop_follows _ _ _ _ _ _ _ Hrun) as (tr' & idx & Hf & He & _).
  pose proof (follows_trace _ _ _ Hf) as Ht'.
  rewrite Ht in Ht'. apply app_inv_head in Ht'. subst tr'.
  simpl in Ht.
  assert (forall l, Forall loop_event l -> count_event Ia_start_acquisition l = 0%nat)
    as Hnostart.
  { unfold count_event. induction 1 as [|ev l Hev _ IHl]; [done|].
    rewrite filter_cons.
    by destruct ev; simpl in Hev; try done; (destruct (decide _); [done|]). }
  destruct lx; [|done|done]. simpl. intros [= <- <-]. simpl.
  destruct Hstop as [Hc|(_ & tr0 & -> & Hc)].
  - exists tr. split; [done|]. split; [by apply Hnostart|].
    left. rewrite Ht, <- !app_assoc. done.
  - exists tr0. split; [done|].
    apply Forall_app in He as [He0 _].
    split; [by apply Hnostart|].
    right. rewrite Ht, <- !app_assoc. done.
Qed.

Lemma run_stops_camera_at_most_once_witness :
  exists tr,
    count_event Ia_stop_acquisition tr = 0%nat
    /\ count_event Ia_start_acquisition tr = 0%nat
    /\ (trace (run [tick_frame 0; tick_stop []] fresh_thread.1 fresh_thread.2).2
        = trace fresh_thread.2 ++ [Ia_start_acquisition] ++ tr
          ++ [Ia_destroy; Emit_done]
        \/ trace (run [tick_frame 0; tick_stop []] fresh_thread.1 fresh_thread.2).2
           = trace fresh_thread.2 ++ [Ia_start_acquisition] ++ tr
             ++ [Ia_stop_acquisition; Ia_destroy; Emit_done]).
Proof.
  apply (run_stops_camera_at_most_once [tick_frame 0; tick_stop []]
           fresh_thread.1 fresh_thread.2
           (run [tick_frame 0; tick_stop []] fresh_thread.1 fresh_thread.2).1.2).
  reflexivity.
Defined.

(** ** The statistics line *)

Lemma occurs_append (c : Ascii.ascii) (s1 s2 : string) :
  occurs c (String.append s1 s2) = occurs c s1 || occurs c s2.
Proof.
  induction s1 as [|c' s1 IH]; simpl; [done|].
  by rewrite IH, orb_assoc.
Qed.

Lemma statistics_stopped_iff (self : ImageReaderThread) (view : CameraView)
    (w : World) :
  statistics self view w = "stopped"%string <-> _ia self = None.
Proof.
  unfold statistics. destruct (_ia self) as [ia|]; [|done].
  split; [|done]. intros Heq.
  apply (f_equal (occurs " "%char)) in Heq. revert Heq. simpl String.concat.
  rewrite (occurs_append _ _ (String.append " " _)).
  rewrite (occurs_append _ " ").
  change (occurs " " " ") with true.
  rewrite orb_true_r. by vm_compute.
Qed.

(** X11. The statistics line reads "stopped" exactly when the thread
    object holds no camera any more. For a thread that had a camera when
    [run] was called, that is exactly when the run has returned: a run
    still in its loop, and a run that an exception has left, keep
    reporting figures. *)
Theorem statistics_reads_stopped_after_return :
  forall (schedule : list Tick) (self : ImageReaderThread) (w : World)
         (x : RunExit) (self' : ImageReaderThread) (w' : World)
         (view : CameraView),
    _ia self <> None ->
    run schedule self w = (x, self', w') ->
    (statistics self' view w' = "stopped"%string <-> x = Returned).
Proof.
  intros schedule self w x self' w' view Hia.
  rewrite statistics_stopped_iff. unfold run.
  destruct (_ia self) as [ia|] eqn:Hself; [|done].
  destruct (run_loop 0 schedule self (log Ia_start_acquisition w))
    as [[lx self1] w1] eqn:Hrun.
  apply run_loop_ia in Hrun. rewrite Hself in Hrun.
  destruct lx; simpl; intros [= <- <- <-]; simpl; [done| |];
    rewrite Hrun; by split.
Qed.

Lemma statistics_reads_stopped_after_return_witness :
  statistics
    (run [tick_frame 0; tick_failure] fresh_thread.1 fresh_thread.2).1.2
    {| Width := 640; Height := 480; PixelFormat := "RGB8";
       fps_text := "9.8"; elapsed_text := "0:00:01" |}
    (run [tick_frame 0; tick_failure] fresh_thread.1 fresh_thread.2).2
  = "stopped"%string
  <-> Propagated GenericException = Returned.
Proof.
  apply (statistics_reads_stopped_after_return [tick_frame 0; tick_failure]
           fresh_thread.1 fresh_thread.2);
    [discriminate | reflexivity].
Defined.

(** ** The window *)

Section Window.
Context `{Pfnc}.

Lemma image_acquired_frame (a : nat) (m : HarvesterMain) :
  let m' := (image_acquired a m).2 in
  startButton (_ui m') = startButton (_ui m)
  /\ stopButton (_ui m') = stopButton (_ui m)
  /\ statusbar (_ui m') = statusbar (_ui m)
  /\ _state_running m' = _state_running m
  /\ _image_reader_thread m' = _image_reader_thread m
  /\ threads m' = threads m
  /\ calls m' = calls m.
Proof.
  unfold image_acquired.
  destruct (heap (world m) !! a) as [obj|]; [|done].
  destruct (image obj) as [[q|]|e]; [|done|done].
  by destruct (release a (world (show_image q m))) as [r w].
Qed.

Lemma happen_ok (h : Happening) (m : HarvesterMain) :
  window_ok m -> window_ok (happen h m).
Proof.
  intros Hok. pose proof Hok as (Hs & Hp & Hst & Hin & Href).
  destruct h as [ia| | |a|view|n schedule]; simpl.
  - unfold window_ok, start, update. simpl.
    split; [done|]. split; [done|]. split; [by eexists|]. split; [done|].
    intros n [= <-].
    apply lookup_lt_is_Some. rewrite length_app. simpl. lia.
  - unfold stop. destruct (_image_reader_thread m) as [n|] eqn:Hn; [|done].
    unfold window_ok, update. simpl. by repeat split.
  - unfold window_ok, done, update. simpl.
    split; [done|]. split; [done|]. by split.
  - destruct (image_acquired_frame a m) as (Hb1 & Hb2 & _ & Hb3 & Hb4 & Hb5 & _).
    unfold window_ok. by rewrite Hb1, Hb2, Hb3, Hb4, Hb5.
  - unfold _worker_update_statistics.
    destruct (_image_reader_thread m) as [n|] eqn:Hn; [|done].
    destruct (threads m !! n) eqn:Hth; [|done].
    unfold window_ok, show_message. simpl. by rewrite Hn.
  - unfold thread_runs.
    destruct (threads m !! n) as [thread|] eqn:Hn; [|done].
    destruct (run schedule thread (world m)) as [[x thread'] w'].
    unfold window_ok. simpl.
    split; [done|]. split; [done|]. split; [done|]. split; [done|].
    intros k Hk. destruct (Href k Hk) as [th Hth].
    destruct (decide (n = k)) as [->|Hne].
    + rewrite list_lookup_insert_eq by (by eapply lookup_lt_Some). by eexists.
    + rewrite list_lookup_insert_ne by done. by eexists.
Qed.

Lemma history_ok (hs : list Happening) : forall m : HarvesterMain,
  window_ok m -> window_ok (history hs m).
Proof.
  induction hs as [|h hs IH]; intros m Hm; [done|].
  apply IH. by apply happen_ok.
Qed.

End Window.

(** X12. Whatever happens to the window, in whatever order -- buttons
    pressed, signals delivered, the timer firing, reader threads running --
    the two buttons mirror the running state, so that they are never both
    enabled; while the stop button is enabled a reader thread object is
    referenced, and in the state between stop and done none is. *)
Theorem window_buttons_follow_the_state :
  forall (tables : Pfnc) (hs : list Happening) (buttons : bool * bool) (w : World),
    let m := history hs (HarvesterMain_init buttons w) in
    startButton (_ui m) = bool_decide (_state_running m = STOPPED)
    /\ stopButton (_ui m) = bool_decide (_state_running m = STARTED)
    /\ startButton (_ui m) && stopButton (_ui m) = false
    /\ (stopButton (_ui m) = true ->
        exists n thread,
          _image_reader_thread m = Some n /\ threads m !! n = Some thread)
    /\ (_state_running m = INTRANSITION -> _image_reader_thread m = None).
Proof.
  intros tables hs buttons w m.
  assert (window_ok m) as (Hs & Hp & Hst & Hin & Href).
  { apply history_ok. by repeat split. }
  split; [done|]. split; [done|]. split; [|split; [|done]].
  - rewrite Hs, Hp. unfold button_start_enabled, button_stop_enabled.
    by destruct (_state_running m).
  - rewrite Hp. unfold button_stop_enabled. intros Hstarted.
    apply bool_decide_eq_true in Hstarted.
    destruct (Hst Hstarted) as [n Hn].
    destruct (Href n Hn) as [thread Hthread]. by exists n, thread.
Qed.

Lemma window_buttons_follow_the_state_witness :
  let m := history [Start_pressed 0; Thread_ran 0 [tick_frame 0];
                    Image_acquired_delivered 0; Stop_pressed]
             (HarvesterMain_init (true, true) initial_world) in
  startButton (_ui m) = bool_decide (_state_running m = STOPPED)
  /\ stopButton (_ui m) = bool_decide (_state_running m = STARTED)
  /\ startButton (_ui m) && stopButton (_ui m) = false
  /\ (stopButton (_ui m) = true ->
      exists n thread,
        _image_reader_thread m = Some n /\ threads m !! n = Some thread)
  /\ (_state_running m = INTRANSITION -> _image_reader_thread m = None).
Proof.
  apply (window_buttons_follow_the_state Harvesters.pfnc
           [Start_pressed 0; Thread_ran 0 [tick_frame 0];
            Image_acquired_delivered 0; Stop_pressed]
           (true, true) initial_world).
Defined.

(** ** The consumer's slot *)

(** X13. When the handle delivered to [image_acquired] is in flight, the
    pool counter positive and its image can be built, the slot shows the
    image and releases the handle: the counter drops by one and the buffer
    is queued. Delivered a second time, the same handle makes the slot
    raise the attribute error at [image], before anything is shown and
    before [release] is reached, so that the counter is left alone. *)
Theorem slot_shows_then_releases :
  forall (tables : Pfnc) (m : HarvesterMain) (a : nat)
         (obj : ImageBuffer) (b : Buffer) (q : QImage),
    heap (world m) !! a = Some obj ->
    _buffer obj = Some b ->
    image obj = Ok (Some q) ->
    0 < in_flight (world m) ->
    exists m1,
      image_acquired a m = (Ok tt, m1)
      /\ imageviewer (_ui m1) = imageviewer (_ui m) ++ [q]
      /\ in_flight (world m1) = in_flight (world m) - 1
      /\ trace (world m1) = trace (world m) ++ [Queue_buffer (raw_buffer b)]
      /\ image_acquired a m1 = (Raise AttributeError, m1).
Proof.
  intros tables m a obj b q Hl Hb Hq Hp.
  unfold image_acquired at 1. rewrite Hl, Hq.
  change (world (show_image q m)) with (world m).
  rewrite (release_live a obj b (world m) Hl Hb Hp).
  eexists. split; [done|]. split; [done|]. split; [done|]. split; [done|].
  unfold image_acquired. simpl.
  rewrite list_lookup_insert_eq by (by eapply lookup_lt_Some).
  done.
Qed.

Lemma slot_shows_then_releases_witness :
  let m := thread_runs 0 [tick_frame 0]
             (start 0 (HarvesterMain_init (true, true) initial_world)) in
  exists m1,
    image_acquired 0 m = (Ok tt, m1)
    /\ imageviewer (_ui m1)
       = imageviewer (_ui m)
         ++ [{| bits := [1; 2; 3]; qwidth := 1; qheight := 1;
                bytesPerLine := 3; qformat := Format_RGB888 |}]
    /\ in_flight (world m1) = in_flight (world m) - 1
    /\ trace (world m1)
       = trace (world m) ++ [Queue_buffer (sample_frame 0)]
    /\ image_acquired 0 m1 = (Raise AttributeError, m1).
Proof.
  apply (slot_shows_then_releases Harvesters.pfnc
           (thread_runs 0 [tick_frame 0]
              (start 0 (HarvesterMain_init (true, true) initial_world)))
           0%nat
           {| _i := 0; _buffer := Some {| raw_buffer := sample_frame 0 |} |}
           {| raw_buffer := sample_frame 0 |});
    reflexivity.
Defined.

Lemma slot_without_image (tables : Pfnc) (m : HarvesterMain) (a : nat)
    (obj : ImageBuffer) :
  heap (world m) !! a = Some obj ->
  (forall q, image obj <> Ok (Some q)) ->
  exists e, image_acquired a m = (Raise e, m).
Proof.
  intros Hl Hno. unfold image_acquired. rewrite Hl.
  destruct (image obj) as [[q|]|e]; [by destruct (Hno q) | by eexists | by eexists].
Qed.

(** X14. A frame in a mono or Bayer format is never released by the slot:
    [image_acquired] raises before it shows or releases anything, and
    leaves the window and the world, the pool counter and the handle with
    its buffer, exactly as they were. *)
Theorem slot_never_releases_single_sample_frames :
  forall (tables : Pfnc) (m : HarvesterMain) (a : nat) (obj : ImageBuffer)
         (buffer : Buffer) (component : Component) (rest : list Component),
    heap (world m) !! a = Some obj ->
    _buffer obj = Some buffer ->
    components (raw_buffer buffer) = component :: rest ->
    data_format component ∈ mono_location_formats
    \/ data_format component ∈ bayer_location_formats ->
    exists e, image_acquired a m = (Raise e, m).
Proof.
  intros tables m a obj buffer component rest Hl Hb Hcs Hf.
  apply (slot_without_image tables m a obj Hl).
  intros q. by apply (single_sample_formats_yield_no_image obj q buffer component rest).
Qed.

Lemma slot_never_releases_single_sample_frames_witness :
  let frame :=
    Harvesters.image_buffer 0
      (Harvesters.component "Mono8" 4 2 1 [1; 2; 3; 4; 5; 6; 7; 8]) in
  let t := {| consumer_releases := []; stop_pressed := false;
              ia_is_acquiring := true; wait := NewBuffer frame;
              stop_pressed_during_wait := false |} in
  let m := thread_runs 0 [t]
             (start 0 (HarvesterMain_init (true, true) initial_world)) in
  exists e, image_acquired 0 m = (Raise e, m).
Proof.
  apply (slot_never_releases_single_sample_frames Harvesters.pfnc
           (thread_runs 0
              [{| consumer_releases := []; stop_pressed := false;
                  ia_is_acquiring := true;
                  wait := NewBuffer
                            (Harvesters.image_buffer 0
                               (Harvesters.component "Mono8" 4 2 1
                                  [1; 2; 3; 4; 5; 6; 7; 8]));
                  stop_pressed_during_wait := false |}]
              (start 0 (HarvesterMain_init (true, true) initial_world)))
           0%nat
           {| _i := 0;
              _buffer :=
                Some {| raw_buffer :=
                          Harvesters.image_buffer 0
                            (Harvesters.component "Mono8" 4 2 1
                               [1; 2; 3; 4; 5; 6; 7; 8]) |} |}
           {| raw_buffer :=
                Harvesters.image_buffer 0
                  (Harvesters.component "Mono8" 4 2 1
                     [1; 2; 3; 4; 5; 6; 7; 8]) |}
           (Harvesters.component "Mono8" 4 2 1 [1; 2; 3; 4; 5; 6; 7; 8]) []);
    [reflexivity | reflexivity | reflexivity | left; by_evaluation].
Defined.

(** X16. Once stop has been pressed the status bar is given no further
    message until start is pressed again, whatever else happens -- frames
    and done delivered, the timer firing, the reader thread finishing its
    run: the timer's slot finds no thread object to ask. *)
Theorem status_bar_is_frozen_after_stop :
  forall (tables : Pfnc) (hs : list Happening) (m : HarvesterMain),
    forallb (fun h => negb (is_start h)) hs = true ->
    statusbar (_ui (history hs (stop m))) = statusbar (_ui (stop m))
    /\ _image_reader_thread (history hs (stop m)) = None.
Proof.
  intros tables hs m.
  assert (_image_reader_thread (stop m) = None) as Hnone
    by (unfold stop; by destruct (_image_reader_thread m) eqn:E).
  revert Hnone. generalize (stop m). clear m.
  induction hs as [|h hs IH]; intros m Hnone Hhs; [done|].
  simpl in Hhs. apply andb_true_iff in Hhs as [Hh Hhs].
  assert (statusbar (_ui (happen h m)) = statusbar (_ui m)
          /\ _image_reader_thread (happen h m) = None) as [Hbar Hnone'].
  { destruct h as [ia| | |a|view|n schedule]; simpl; try done.
    - unfold stop. by rewrite Hnone.
    - destruct (image_acquired_frame a m) as (_ & _ & -> & _ & -> & _). done.
    - unfold _worker_update_statistics. by rewrite Hnone.
    - unfold thread_runs. destruct (threads m !! n); [|done].
      by destruct (run schedule _ (world m)) as [[x thread'] w']. }
  change (history (h :: hs) m) with (history hs (happen h m)).
  destruct (IH (happen h m) Hnone' Hhs) as [-> ->]. done.
Qed.

Lemma status_bar_is_frozen_after_stop_witness :
  let m := start 0 (HarvesterMain_init (true, true) initial_world) in
  let view := {| Width := 640; Height := 480; PixelFormat := "RGB8";
                 fps_text := "9.8"; elapsed_text := "0:00:01" |} in
  let hs := [Thread_ran 0 [tick_stop []]; Timer_fired view; Done_delivered;
             Timer_fired view] in
  statusbar (_ui (history hs (stop m))) = statusbar (_ui (stop m))
  /\ _image_reader_thread (history hs (stop m)) = None.
Proof.
  apply (status_bar_is_frozen_after_stop Harvesters.pfnc
           [Thread_ran 0 [tick_stop []];
            Timer_fired {| Width := 640; Height := 480; PixelFormat := "RGB8";
                           fps_text := "9.8"; elapsed_text := "0:00:01" |};
            Done_delivered;
            Timer_fired {| Width := 640; Height := 480; PixelFormat := "RGB8";
                           fps_text := "9.8"; elapsed_text := "0:00:01" |}]
           (start 0 (HarvesterMain_init (true, true) initial_world))).
  reflexivity.
Defined.

(** ** The image viewer *)

Section ViewerFacts.
Import Viewer.

Lemma updateViewer_fields (v : Viewer.t) :
  _pixmapHandle (updateViewer v) = _pixmapHandle v
  /\ sceneRect (updateViewer v) = sceneRect v
  /\ _is_zooming (updateViewer v) = _is_zooming v
  /\ canZoom (updateViewer v) = canZoom v
  /\ (_is_zooming v = true -> updateViewer v = v).
Proof.
  unfold updateViewer.
  destruct (hasPixmap v); simpl; [|done].
  destruct (_is_zooming v) eqn:Hz; simpl; by rewrite ?Hz.
Qed.







End ViewerFacts.



Lemma filter_fit_call (c : Viewer.ViewCall) (v : Viewer.t) :
  Viewer.is_fit c = false ->
  List.filter Viewer.is_fit (Viewer.view_calls (Viewer.call c v))
  = List.filter Viewer.is_fit (Viewer.view_calls v).
Proof.
  intros Hc. unfold Viewer.call. simpl.
  rewrite List.filter_app. simpl. rewrite Hc. apply app_nil_r.
Qed.

Lemma act_keeps_zoom (a : Viewer.Action) (v : Viewer.t) :
  Viewer._is_zooming v = true ->
  Viewer.is_left_double_click a = false ->
  Viewer._is_zooming (Viewer.act a v) = true
  /\ List.filter Viewer.is_fit (Viewer.view_calls (Viewer.act a v))
     = List.filter Viewer.is_fit (Viewer.view_calls v).
Proof.
  intros Hz Ha. destruct a as [image| | |b x y|b x y|b x y|d]; simpl.
  - unfold Viewer.setImage.
    destruct image as [q|p|]; simpl; [| |done].
    + destruct (bool_decide _); simpl; [|done].
      by rewrite (proj2 (proj2 (proj2 (proj2 (updateViewer_fields _))))).
    + destruct (bool_decide _); simpl; [|done].
      by rewrite (proj2 (proj2 (proj2 (proj2 (updateViewer_fields _))))).
  - unfold Viewer.clearImage. by destruct (Viewer.hasPixmap v).
  - unfold Viewer.resizeEvent.
    by rewrite (proj2 (proj2 (proj2 (proj2 (updateViewer_fields v)))) Hz).
  - unfold Viewer.mousePressEvent. destruct b; try done.
    rewrite filter_fit_call by done. by destruct (Viewer.canPan v).
  - unfold Viewer.mouseReleaseEvent.
    destruct b; try done; by rewrite filter_fit_call.
  - unfold Viewer.mouseDoubleClickEvent.
    destruct b; try done. by rewrite filter_fit_call.
  - unfold Viewer.wheelEvent. destruct (Viewer.canZoom v); [|done].
    by rewrite filter_fit_call.
Qed.

(** X18. Once the user has zoomed with the wheel, the zoom is kept: until
    the next double click of the left button, no new image, whatever its
    size, and no resize makes the viewer fit the image to the view
    again. *)
Theorem zoom_is_kept_until_double_click :
  forall (l : list Viewer.Action) (v : Viewer.t),
    Viewer._is_zooming v = true ->
    forallb (fun a => negb (Viewer.is_left_double_click a)) l = true ->
    Viewer._is_zooming (Viewer.acts l v) = true
    /\ List.filter Viewer.is_fit (Viewer.view_calls (Viewer.acts l v))
       = List.filter Viewer.is_fit (Viewer.view_calls v).
Proof.
  induction l as [|a l IH]; intros v Hz Hl; [done|].
  simpl in Hl. apply andb_true_iff in Hl as [Ha Hl].
  apply negb_true_iff in Ha.
  destruct (act_keeps_zoom a v Hz Ha) as [Hz' Hf'].
  change (Viewer.acts (a :: l) v) with (Viewer.acts l (Viewer.act a v)).
  destruct (IH (Viewer.act a v) Hz' Hl) as [-> ->]. done.
Qed.

Lemma zoom_is_kept_until_double_click_witness :
  let q1 := {| bits := [1; 2; 3]; qwidth := 1; qheight := 1;
               bytesPerLine := 3; qformat := Format_RGB888 |} in
  let q2 := {| bits := [1; 2; 3; 4; 5; 6]; qwidth := 2; qheight := 1;
               bytesPerLine := 6; qformat := Format_RGB888 |} in
  let r0 := {| Viewer.rx := 0; Viewer.ry := 0;
               Viewer.rwidth := 0; Viewer.rheight := 0 |} in
  let v := Viewer.acts [Viewer.SetImage (Viewer.A_QImage q1); Viewer.Wheel 120]
             (Viewer.init r0 Viewer.NoDrag) in
  let l := [Viewer.SetImage (Viewer.A_QImage q2); Viewer.Resize;
            Viewer.DoubleClick Viewer.RightButton 0 0] in
  Viewer._is_zooming (Viewer.acts l v) = true
  /\ List.filter Viewer.is_fit (Viewer.view_calls (Viewer.acts l v))
     = List.filter Viewer.is_fit (Viewer.view_calls v).
Proof.
  apply (zoom_is_kept_until_double_click
           [Viewer.SetImage
              (Viewer.A_QImage
                 {| bits := [1; 2; 3; 4; 5; 6]; qwidth := 2; qheight := 1;
                    bytesPerLine := 6; qformat := Format_RGB888 |});
            Viewer.Resize; Viewer.DoubleClick Viewer.RightButton 0 0]
           (Viewer.acts
              [Viewer.SetImage
                 (Viewer.A_QImage
                    {| bits := [1; 2; 3]; qwidth := 1; qheight := 1;
                       bytesPerLine := 3; qformat := Format_RGB888 |});
               Viewer.Wheel 120]
              (Viewer.init
                 {| Viewer.rx := 0; Viewer.ry := 0;
                    Viewer.rwidth := 0; Viewer.rheight := 0 |}
                 Viewer.NoDrag)));
    reflexivity.
Defined.



(** ** Configuring the camera *)

(** X20. [CameraBasler.configure] leaves the four acquisition nodes at its
    fixed values and the pixel format at RGB8, or else prints, between the
    old format and the format left, that it could not set it -- never both
    and never neither. It warns exactly when the format was not RGB8 and
    the node is neither write-only nor read-write, and then leaves the
    format as it was. The last line printed is always the format the
    camera is left with, and configuring again changes no node. *)
Theorem configure_sets_rgb8_or_warns :
  forall node_map : Camera_config.NodeMap,
    let node_map' := (Camera_config.configure node_map).1 in
    let printed := (Camera_config.configure node_map).2 in
    let old := Camera_config.PixelFormat node_map in
    let warning := [old; Camera_config.could_not_set; old] in
    Camera_config.AcquisitionMode node_map' = "Continuous"%string
    /\ Camera_config.AcquisitionFrameRate node_map' = Camera_config.FRAME_PER_S
    /\ Camera_config.AcquisitionFrameRateEnable node_map' = true
    /\ Camera_config.ExposureTime node_map' = 10000
    /\ (Camera_config.PixelFormat node_map' = "RGB8"%string <-> printed <> warning)
    /\ (printed = warning
        <-> old <> "RGB8"%string
            /\ Camera_config.PixelFormat_access_mode node_map <> Camera_config.WO
            /\ Camera_config.PixelFormat_access_mode node_map <> Camera_config.RW)
    /\ (printed = warning -> Camera_config.PixelFormat node_map' = old)
    /\ last printed = Some (Camera_config.PixelFormat node_map')
    /\ (Camera_config.configure node_map').1 = node_map'.
Proof.
  intros node_map node_map' printed old warning.
  subst node_map' printed old warning.
  unfold Camera_config.configure. simpl.
  destruct (bool_decide (Camera_config.PixelFormat node_map <> "RGB8"%string))
    eqn:Hfmt.
  - apply bool_decide_eq_true in Hfmt.
    assert (forall mode,
               bool_decide (mode ∈ [Camera_config.WO; Camera_config.RW]) = true
               <-> mode = Camera_config.WO \/ mode = Camera_config.RW) as Hmode.
    { intros mode. rewrite bool_decide_eq_true.
      rewrite !elem_of_cons, elem_of_nil. tauto. }
    destruct (bool_decide (Camera_config.PixelFormat_access_mode node_map
                           ∈ [Camera_config.WO; Camera_config.RW])) eqn:Hacc.
    + apply Hmode in Hacc. simpl.
      assert ([Camera_config.PixelFormat node_map; "RGB8"%string]
              <> [Camera_config.PixelFormat node_map;
                  Camera_config.could_not_set;
                  Camera_config.PixelFormat node_map]) as Hshort
        by (intros Heq; apply (f_equal length) in Heq; discriminate Heq).
      split; [done|]. split; [done|]. split; [done|]. split; [done|].
      split; [by split|]. split; [|by split].
      split; [done|]. intros (_ & Hwo & Hrw). by destruct Hacc.
    + assert (Camera_config.PixelFormat_access_mode node_map <> Camera_config.WO
              /\ Camera_config.PixelFormat_access_mode node_map <> Camera_config.RW)
        as Hboth.
      { split; intros Heq;
          (assert (bool_decide
                     (Camera_config.PixelFormat_access_mode node_map
                      ∈ [Camera_config.WO; Camera_config.RW]) = true) as Hyes
             by (apply Hmode; auto));
          by rewrite Hacc in Hyes. }
      simpl. rewrite (bool_decide_eq_true_2 _ Hfmt). rewrite Hacc. simpl.
      destruct Hboth as [Hwo Hrw].
      split; [done|]. split; [done|]. split; [done|]. split; [done|].
      split; [split; [intros Heq; by destruct Hfmt | intros Hne; by destruct Hne]|].
      split; [by split|]. split; [done|]. by split.
  - apply bool_decide_eq_false in Hfmt. apply dec_stable in Hfmt.
    simpl. rewrite Hfmt. simpl.
    assert (["RGB8"%string]
            <> ["RGB8"%string; Camera_config.could_not_set; "RGB8"%string])
      as Hshort
      by (intros Heq; apply (f_equal length) in Heq; discriminate Heq).
    split; [done|]. split; [done|]. split; [done|]. split; [done|].
    split; [by split|]. split; [|by split].
    split; [done|]. by intros (Hne & _).
Qed.

Lemma configure_sets_rgb8_or_warns_witness :
  Camera_config.PixelFormat
    (Camera_config.configure
       {| Camera_config.AcquisitionMode := "SingleFrame";
          Camera_config.AcquisitionFrameRate := 30%Q;
          Camera_config.AcquisitionFrameRateEnable := false;
          Camera_config.ExposureTime := 5;
          Camera_config.PixelFormat := "Mono8";
          Camera_config.PixelFormat_access_mode := Camera_config.RO |}).1
  = "Mono8"%string.
Proof.
  apply (configure_sets_rgb8_or_warns
           {| Camera_config.AcquisitionMode := "SingleFrame";
              Camera_config.AcquisitionFrameRate := 30%Q;
              Camera_config.AcquisitionFrameRateEnable := false;
              Camera_config.ExposureTime := 5;
              Camera_config.PixelFormat := "Mono8";
              Camera_config.PixelFormat_access_mode := Camera_config.RO |}).
  reflexivity.
Defined.
